(** * gcs-sync: the scheduling engine and its collaborators, embedded in Rocq

    The development follows the Go packages of the repository:
    [ignore] (glob patterns compiled to regular expressions), [logging],
    [config], [util], [gsutil] and [watcher] (the per-rule run loop and
    [StartAll]).

    A Go string is modelled by [string] as the sequence of its bytes, one
    [ascii] each.  The parser and the matcher of [Regexp] work byte by
    byte, which is how Go's engine treats ASCII text; what the engine does
    with the encoding of an expression, and with its size, is in [Utf8] and
    [Regexp.Compile_checked].  Times and durations are integers
    (nanoseconds) in [Z].  The run loop is a transition
    function over the inputs its [select] receives, each with the time at
    which it is received. *)

From Stdlib Require Import String Ascii List ZArith Bool Lia Permutation.
Import ListNotations.
Local Open Scope string_scope.
Local Open Scope list_scope.

(** ** Results of fallible calls *)

Inductive result (E A : Type) : Type :=
| Ok (a : A)
| Err (e : E).
Arguments Ok {E A} a.
Arguments Err {E A} e.

(** ** The parts of Go's [strings] and [path/filepath] the program calls *)

Module GoStrings.

(** [strings.HasPrefix]. *)
Fixpoint HasPrefix (s pre : string) : bool :=
  match pre, s with
  | EmptyString, _ => true
  | String _ _, EmptyString => false
  | String a pre', String b s' => if Ascii.eqb a b then HasPrefix s' pre' else false
  end.

(** The scan of [strings.ReplaceAll] for a non-empty [old]: the leftmost
    occurrence is replaced and the scan resumes after it; [skip] counts the
    characters of a replaced occurrence still to be passed over. *)
Fixpoint replace_from (old new : string) (skip : nat) (s : string) : string :=
  match s with
  | EmptyString => EmptyString
  | String c s' =>
      match skip with
      | S k => replace_from old new k s'
      | O =>
          if HasPrefix s old
          then new ++ replace_from old new (String.length old - 1) s'
          else String c (replace_from old new 0 s')
      end
  end.

(** With an empty [old], [new] is inserted before every character and at
    the end. *)
Fixpoint intersperse_all (new s : string) : string :=
  match s with
  | EmptyString => new
  | String c s' => new ++ String c (intersperse_all new s')
  end.

Definition ReplaceAll (s old new : string) : string :=
  match old with
  | EmptyString => intersperse_all new s
  | String _ _ => replace_from old new 0 s
  end.

(** ASCII letters are lowered by adding 32. *)
Definition lower_ascii (c : ascii) : ascii :=
  let n := nat_of_ascii c in
  if andb (Nat.leb 65 n) (Nat.leb n 90) then ascii_of_nat (n + 32) else c.

Fixpoint map_string (f : ascii -> ascii) (s : string) : string :=
  match s with
  | EmptyString => EmptyString
  | String c s' => String (f c) (map_string f s')
  end.

Fixpoint all_chars (p : ascii -> bool) (s : string) : bool :=
  match s with
  | EmptyString => true
  | String c s' => p c && all_chars p s'
  end.

Definition is_ascii (c : ascii) : bool := Nat.ltb (nat_of_ascii c) 128.

(** [strings.ToLower]: a string of ASCII characters is lowered letter by
    letter; any other string goes through the Unicode case tables,
    [unicode_lower] here. *)
Definition ToLower (unicode_lower : string -> string) (s : string) : string :=
  if all_chars is_ascii s then map_string lower_ascii s else unicode_lower s.

(** [strings.Join]. *)
Fixpoint Join (elems : list string) (sep : string) : string :=
  match elems with
  | [] => ""
  | [e] => e
  | e :: es => e ++ sep ++ Join es sep
  end.

End GoStrings.

Module Filepath.

Definition Separator : ascii := "/"%char.

(** The path elements between separators. *)
Fixpoint elements (s : string) : list string :=
  match s with
  | EmptyString => [EmptyString]
  | String c s' =>
      if Ascii.eqb c Separator then EmptyString :: elements s'
      else match elements s' with
           | e :: es => String c e :: es
           | [] => [String c EmptyString]
           end
  end.

(** The output buffer of [Clean], as the stack of elements written so far
    (last written first) and the number of them above the [dotdot] mark. *)
Record lazybuf : Type := { out : list string; above : nat }.

Definition clean_element (rooted : bool) (b : lazybuf) (e : string) : lazybuf :=
  if String.eqb e "" then b                       (* empty path element *)
  else if String.eqb e "." then b                 (* . element *)
  else if String.eqb e ".." then                  (* .. element *)
    match above b, out b with
    | S k, _ :: rest => {| out := rest; above := k |}       (* can backtrack *)
    | _, _ => if rooted then b
              else {| out := ".." :: out b; above := 0 |}   (* keep the .. *)
    end
  else {| out := e :: out b; above := S (above b) |}.      (* real element *)

(** [filepath.Clean] on a system whose separator is the slash. *)
Definition Clean (path : string) : string :=
  match path with
  | EmptyString => "."
  | String c _ =>
      let rooted := Ascii.eqb c Separator in
      let b := fold_left (clean_element rooted) (elements path)
                         {| out := []; above := 0 |} in
      let body := GoStrings.Join (rev (out b)) "/" in
      if rooted then String Separator body
      else if String.eqb body "" then "." else body
  end.

(** [filepath.ToSlash] returns its argument when the separator is the
    slash. *)
Definition ToSlash (path : string) : string := path.

(** [filepath.Join]: from the first non-empty element on, the elements are
    joined by the separator and the result is cleaned. *)
Fixpoint Join (elem : list string) : string :=
  match elem with
  | [] => ""
  | e :: elem' =>
      if String.eqb e "" then Join elem'
      else Clean (GoStrings.Join elem "/")
  end.

End Filepath.

(** ** UTF-8, as Go's [unicode/utf8] accepts it *)

Module Utf8.

(** What the decoder expects after the bytes read so far: the first byte of
    a character, or a byte between [lo] and [hi] followed by [more]
    continuation bytes. *)
Inductive expect : Type :=
| First
| Within (more : nat) (lo hi : nat).

Definition between (lo hi : nat) (n : nat) : bool :=
  Nat.leb lo n && Nat.leb n hi.

(** The table of first bytes: overlong forms, surrogates and values above
    U+10FFFF are excluded by the range of the second byte. *)
Definition first_byte (n : nat) : option expect :=
  if Nat.ltb n 128 then Some First
  else if between 194 223 n then Some (Within 0 128 191)
  else if Nat.eqb n 224 then Some (Within 1 160 191)
  else if between 225 236 n then Some (Within 1 128 191)
  else if Nat.eqb n 237 then Some (Within 1 128 159)
  else if between 238 239 n then Some (Within 1 128 191)
  else if Nat.eqb n 240 then Some (Within 2 144 191)
  else if between 241 243 n then Some (Within 2 128 191)
  else if Nat.eqb n 244 then Some (Within 2 128 143)
  else None.

Definition step (e : expect) (c : ascii) : option expect :=
  let n := nat_of_ascii c in
  match e with
  | First => first_byte n
  | Within more lo hi =>
      if between lo hi n then
        match more with
        | O => Some First
        | S k => Some (Within k 128 191)
        end
      else None
  end.

Fixpoint scan (e : expect) (s : string) : option expect :=
  match s with
  | EmptyString => Some e
  | String c s' =>
      match step e c with
      | Some e' => scan e' s'
      | None => None
      end
  end.

(** Whether [s] completes what the decoder expects, and ends on a whole
    character. *)
Definition valid_from (e : expect) (s : string) : bool :=
  match scan e s with
  | Some First => true
  | _ => false
  end.

(** [utf8.ValidString]. *)
Definition ValidString (s : string) : bool := valid_from First s.

(** Within a character the decoder expects a byte above 127. *)
Definition inside (e : expect) : Prop :=
  match e with
  | First => True
  | Within _ lo _ => 128 <= lo
  end.

End Utf8.

(** ** The fragment of Go's [regexp] that the ignore package reaches *)

Module Regexp.

(** The bytes [regexp.QuoteMeta] escapes: [\.+*?()|[]{}^$]. *)
Definition special (b : ascii) : bool :=
  existsb (Ascii.eqb b)
    ["\"; "."; "+"; "*"; "?"; "("; ")"; "|"; "["; "]"; "{"; "}"; "^"; "$"]%char.

Fixpoint QuoteMeta (s : string) : string :=
  match s with
  | EmptyString => EmptyString
  | String c s' =>
      if special c then String "\" (String c (QuoteMeta s'))
      else String c (QuoteMeta s')
  end.

(** One-character matchers. *)
Inductive atom : Type :=
| Lit (c : ascii)                          (* the character itself *)
| AnyNotNL                                 (* [.]: any character but newline *)
| Class (negated : bool) (cs : list ascii) (* [[...]] and [[^...]] *).

(** A parsed expression is a sequence of these. *)
Inductive node : Type :=
| One (a : atom)
| Star (a : atom)                          (* [a*] *)
| BeginText                                (* [^] *)
| EndText                                  (* [$] *).

Inductive ErrorCode : Type :=
| ErrMissingBracket          (* missing closing ] *)
| ErrMissingRepeatArgument   (* missing argument to repetition operator *)
| ErrInvalidRepeatOp         (* invalid nested repetition operator *)
| ErrTrailingBackslash       (* trailing backslash at end of expression *)
| ErrInvalidEscape           (* invalid escape sequence *)
| ErrInvalidUTF8             (* invalid UTF-8 *)
| ErrLarge                   (* expression too large *)
| ErrOutsideFragment         (* syntax this development does not interpret *).

(** Where the parser stands between two characters. *)
Inductive pstate : Type :=
| PNormal
| PEscape                                  (* after a backslash *)
| PClassOpen                               (* after [[] *)
| PClass (negated : bool) (cs : list ascii) (* inside a class, [cs] reversed *).

Definition is_alnum (c : ascii) : bool :=
  let n := nat_of_ascii c in
  (Nat.leb 48 n && Nat.leb n 57) || (Nat.leb 65 n && Nat.leb n 90)
  || (Nat.leb 97 n && Nat.leb n 122).

Definition class_char (negated : bool) (cs : list ascii) (c : ascii)
  : result ErrorCode pstate :=
  if existsb (Ascii.eqb c) ["\"; "-"; "["; "]"]%char
  then Err ErrOutsideFragment
  else Ok (PClass negated (c :: cs)).

(** One step of the parser: the state, the nodes read so far (last first)
    and the next character. *)
Definition parse_char (st : pstate) (acc : list node) (c : ascii)
  : result ErrorCode (pstate * list node) :=
  match st with
  | PNormal =>
      if Ascii.eqb c "\" then Ok (PEscape, acc)
      else if Ascii.eqb c "." then Ok (PNormal, One AnyNotNL :: acc)
      else if Ascii.eqb c "[" then Ok (PClassOpen, acc)
      else if Ascii.eqb c "^" then Ok (PNormal, BeginText :: acc)
      else if Ascii.eqb c "$" then Ok (PNormal, EndText :: acc)
      else if Ascii.eqb c "*" then
        match acc with
        | [] => Err ErrMissingRepeatArgument
        | One a :: acc' => Ok (PNormal, Star a :: acc')
        | Star _ :: _ => Err ErrInvalidRepeatOp
        | _ :: _ => Err ErrOutsideFragment
        end
      else if existsb (Ascii.eqb c) ["("; ")"; "|"; "+"; "?"; "{"]%char
      then Err ErrOutsideFragment
      else Ok (PNormal, One (Lit c) :: acc)
  | PEscape =>
      if negb (GoStrings.is_ascii c) then Err ErrInvalidEscape
      else if is_alnum c then Err ErrOutsideFragment
      else Ok (PNormal, One (Lit c) :: acc)
  | PClassOpen =>
      if Ascii.eqb c "^" then Ok (PClass true [], acc)
      else match class_char false [] c with
           | Ok st' => Ok (st', acc)
           | Err e => Err e
           end
  | PClass negated cs =>
      if Ascii.eqb c "]" then
        match cs with
        | [] => Err ErrOutsideFragment
        | _ :: _ => Ok (PNormal, One (Class negated (rev cs)) :: acc)
        end
      else match class_char negated cs c with
           | Ok st' => Ok (st', acc)
           | Err e => Err e
           end
  end.

Fixpoint parse_from (st : pstate) (acc : list node) (s : string)
  : result ErrorCode (list node) :=
  match s with
  | EmptyString =>
      match st with
      | PNormal => Ok (rev acc)
      | PEscape => Err ErrTrailingBackslash
      | PClassOpen | PClass _ _ => Err ErrMissingBracket
      end
  | String c s' =>
      match parse_char st acc c with
      | Ok (st', acc') => parse_from st' acc' s'
      | Err e => Err e
      end
  end.

Definition parse (s : string) : result ErrorCode (list node) :=
  parse_from PNormal [] s.

(** A compiled expression keeps its source text ([String()] returns it). *)
Record Regexp : Type := { expr : string; prog : list node }.

(** The syntactic part of [regexp.Compile]: the expression is parsed. *)
Definition Compile (s : string) : result ErrorCode Regexp :=
  match parse s with
  | Ok p => Ok {| expr := s; prog := p |}
  | Err e => Err e
  end.

(** [regexp.Compile] as the engine runs it: an expression that is not
    valid UTF-8 is refused, and so is one whose program would pass the
    engine's size limit; [too_large] stands for that limit, which is
    internal to the engine. *)
Definition Compile_checked (too_large : string -> bool) (s : string)
  : result ErrorCode Regexp :=
  if negb (Utf8.ValidString s) then Err ErrInvalidUTF8
  else if too_large s then Err ErrLarge
  else Compile s.

Definition newline : ascii := ascii_of_nat 10.

Definition atom_matches (a : atom) (c : ascii) : bool :=
  match a with
  | Lit c' => Ascii.eqb c' c
  | AnyNotNL => negb (Ascii.eqb c newline)
  | Class negated cs => xorb negated (existsb (Ascii.eqb c) cs)
  end.

(** [match_here p s bot]: the nodes [p] match a prefix of [s]; [bot] tells
    whether [s] starts at the beginning of the text. *)
Fixpoint match_here (p : list node) : string -> bool -> bool :=
  match p with
  | [] => fun _ _ => true
  | One a :: p' =>
      fun s _ =>
        match s with
        | String c s' => atom_matches a c && match_here p' s' false
        | EmptyString => false
        end
  | Star a :: p' =>
      fix star (s : string) (bot : bool) : bool :=
        match_here p' s bot
        || match s with
           | String c s' => atom_matches a c && star s' false
           | EmptyString => false
           end
  | BeginText :: p' => fun s bot => bot && match_here p' s bot
  | EndText :: p' =>
      fun s bot =>
        match s with
        | EmptyString => match_here p' s bot
        | String _ _ => false
        end
  end.

(** A match may start anywhere in the text. *)
Fixpoint search (p : list node) (s : string) (bot : bool) : bool :=
  match_here p s bot
  || match s with
     | String _ s' => search p s' false
     | EmptyString => false
     end.

Definition MatchString (re : Regexp) (s : string) : bool :=
  search (prog re) s true.

End Regexp.

(** ** Package ignore *)

Module Ignore.

Definition globToRegex (glob : string) : string :=
  let re := Regexp.QuoteMeta glob in
  let re := GoStrings.ReplaceAll re "\*\*" ".*" in
  let re := GoStrings.ReplaceAll re "\*" "[^/]*" in
  let re := GoStrings.ReplaceAll re "\?" "." in
  "^" ++ re ++ "$".

(** The loop of [Compile]; [res] is the slice built so far. *)
Fixpoint compile_loop (patterns : list string) (res : list Regexp.Regexp)
  : result Regexp.ErrorCode (list Regexp.Regexp) :=
  match patterns with
  | [] => Ok res
  | g :: patterns' =>
      let p := Filepath.ToSlash (Filepath.Clean g) in
      match Regexp.Compile (globToRegex p) with
      | Err err => Err err
      | Ok re => compile_loop patterns' (res ++ [re])
      end
  end.

(** [Compile] over the parser alone: what it returns when the engine's
    checks of encoding and size pass. *)
Definition Compile (root : string) (patterns : list string)
  : result Regexp.ErrorCode (list Regexp.Regexp) :=
  compile_loop patterns [].

(** The loop of [Compile] over [regexp.Compile] with the engine's checks:
    the error of the first expression the engine refuses is returned. *)
Fixpoint compile_loop_checked (too_large : string -> bool)
  (patterns : list string) (res : list Regexp.Regexp)
  : result Regexp.ErrorCode (list Regexp.Regexp) :=
  match patterns with
  | [] => Ok res
  | g :: patterns' =>
      let p := Filepath.ToSlash (Filepath.Clean g) in
      match Regexp.Compile_checked too_large (globToRegex p) with
      | Err err => Err err
      | Ok re => compile_loop_checked too_large patterns' (res ++ [re])
      end
  end.

(** [Compile] as the program runs it. *)
Definition Compile_checked (too_large : string -> bool) (root : string)
  (patterns : list string) : result Regexp.ErrorCode (list Regexp.Regexp) :=
  compile_loop_checked too_large patterns [].

Fixpoint Match (rel : string) (regexes : list Regexp.Regexp) : bool :=
  match regexes with
  | [] => false
  | re :: regexes' =>
      if Regexp.MatchString re rel then true else Match rel regexes'
  end.

End Ignore.

(** ** Package logging, over logrus *)

Module Logging.

(** logrus levels, most severe first. *)
Inductive Level : Type :=
| PanicLevel | FatalLevel | ErrorLevel | WarnLevel
| InfoLevel | DebugLevel | TraceLevel.

Section Unicode.
(** The table-driven part of [strings.ToLower], for strings that are not
    ASCII. *)
Variable unicode_lower : string -> string.

(** [logrus.ParseLevel]. *)
Definition ParseLevel (lvl : string) : result string Level :=
  let l := GoStrings.ToLower unicode_lower lvl in
  if String.eqb l "panic" then Ok PanicLevel
  else if String.eqb l "fatal" then Ok FatalLevel
  else if String.eqb l "error" then Ok ErrorLevel
  else if String.eqb l "warn" || String.eqb l "warning" then Ok WarnLevel
  else if String.eqb l "info" then Ok InfoLevel
  else if String.eqb l "debug" then Ok DebugLevel
  else if String.eqb l "trace" then Ok TraceLevel
  else Err ("not a valid logrus Level: " ++ lvl)%string.

Record TextFormatter : Type :=
  { FullTimestamp : bool; TimestampFormat : string }.

(** The global logger: its level and its formatter. *)
Record Logger : Type := { level : Level; formatter : TextFormatter }.

(** [logrus.New()]. *)
Definition logrus_New : Logger :=
  {| level := InfoLevel;
     formatter := {| FullTimestamp := false; TimestampFormat := "" |} |}.

(** [Init] updates the global logger. *)
Definition Init (lvl_name : string) (logger : Logger) : Logger :=
  let lvl := match ParseLevel (GoStrings.ToLower unicode_lower lvl_name) with
             | Ok l => l
             | Err _ => InfoLevel
             end in
  {| level := lvl;
     formatter := {| FullTimestamp := true;
                     TimestampFormat := "2006-01-02 15:04:05.000" |} |}.

End Unicode.

(** A log entry's fields, as added by [WithField]. *)
Definition Entry : Type := list (string * string).

Definition WithField (e : Entry) (key value : string) : Entry :=
  e ++ [(key, value)].

End Logging.

(** ** Package config *)

Module Config.

Definition SyncDirection : Type := string.

Definition Full : SyncDirection := "full".
Definition LocalToRemote : SyncDirection := "local_to_remote".
Definition RemoteToLocal : SyncDirection := "remote_to_local".

(** A [time.Duration] is a number of nanoseconds. *)
Definition Duration : Type := Z.
Definition Second : Duration := 1000000000%Z.

Record SyncRule : Type :=
  { Src : string;
    Dst : string;
    Directions : list SyncDirection;
    Ignore : list string;
    Enabled : bool;
    DebounceWindow : Duration;
    RemotePollWindow : Duration }.

Record Config : Type := { Sync : list SyncRule }.

(** One entry of the [sync] list of the YAML document: a key that is absent
    from the mapping is [None]. *)
Record yamlRule : Type :=
  { y_src : option string;
    y_dst : option string;
    y_directions : option (list string);
    y_ignore : option (list string);
    y_enabled : option bool;
    y_debounce_window : option Duration;
    y_remote_poll_window : option Duration }.

Definition or_zero {A : Type} (zero : A) (o : option A) : A :=
  match o with Some a => a | None => zero end.

(** [yaml.Unmarshal] into a fresh [Config]: a field whose key is absent
    keeps Go's zero value. *)
Definition unmarshalRule (y : yamlRule) : SyncRule :=
  {| Src := or_zero "" (y_src y);
     Dst := or_zero "" (y_dst y);
     Directions := or_zero [] (y_directions y);
     Ignore := or_zero [] (y_ignore y);
     Enabled := or_zero false (y_enabled y);
     DebounceWindow := or_zero 0%Z (y_debounce_window y);
     RemotePollWindow := or_zero 0%Z (y_remote_poll_window y) |}.

Definition Unmarshal (doc : list yamlRule) : Config :=
  {| Sync := map unmarshalRule doc |}.

(** [Load]: [read_yaml] stands for reading the file and parsing its YAML,
    either of which may fail. *)
Definition Load (read_yaml : string -> result string (list yamlRule))
  (path : string) : result string Config :=
  match read_yaml path with
  | Err err => Err err
  | Ok doc => Ok (Unmarshal doc)
  end.

End Config.

(** ** Package util *)

Module Util.

(** [Expand]; [home] is the home directory of the current user. *)
Definition Expand (home : string) (path : string) : string :=
  if GoStrings.HasPrefix path "~"
  then Filepath.Join [home; String.substring 1 (String.length path - 1) path]
  else path.

End Util.

(** ** Package gsutil *)

Module Gsutil.

(** A call of [RSync] with its arguments. *)
Record call : Type :=
  { src : string;
    dst : string;
    deleteRemote : bool;
    ignoreRegex : list Regexp.Regexp;
    log : Logging.Entry }.

Definition args (c : call) : list string :=
  let a := ["-m";
            "-o"; "GSUtil:parallel_process_count=1";
            "-o"; "GSUtil:sliced_object_download_threshold=0";
            "rsync"; "-r";
            "-e"] in
  let a := if deleteRemote c then a ++ ["-d"] else a in
  let a := fold_left (fun a re => a ++ ["-x"; Regexp.expr re]) (ignoreRegex c) a in
  a ++ [src c; dst c].

(** What [RSync] does. *)
Inductive effect : Type :=
| Infof (e : Logging.Entry) (msg : string)
| Errorf (e : Logging.Entry) (msg : string)
| Run (name : string) (argv : list string).

(** [RSync]; [run_fails] tells whether the command exits with an error. *)
Definition RSync (run_fails : bool) (c : call) : list effect :=
  [Infof (log c) ("gsutil " ++ GoStrings.Join (args c) " ")%string;
   Run "gsutil" (args c)]
  ++ (if run_fails then [Errorf (log c) "gsutil exited with error"] else [])
  ++ [Infof (log c) "gsutil finished"].

End Gsutil.

(** ** Package watcher *)

Module Watcher.
Import Config.

(** *** What the run loop sees of fsnotify, the filesystem and the host *)

(** [fsnotify.Op] is a bit mask. *)
Definition Op : Type := N.
Definition Create : Op := 1%N.
Definition Write : Op := 2%N.
Definition Remove : Op := 4%N.
Definition Rename : Op := 8%N.
Definition Chmod : Op := 16%N.

Definition Has (o h : Op) : bool := N.eqb (N.land o h) h.

(** [Op.String()]. *)
Definition OpString (o : Op) : string :=
  let b := ((if Has o Create then "|CREATE" else "")
            ++ (if Has o Remove then "|REMOVE" else "")
            ++ (if Has o Write then "|WRITE" else "")
            ++ (if Has o Rename then "|RENAME" else "")
            ++ (if Has o Chmod then "|CHMOD" else ""))%string in
  match b with
  | EmptyString => "[no events]"
  | String _ b' => b'
  end.

Record Event : Type := { Name : string; EvOp : Op }.

(** What [filepath.WalkDir] hands to its callback. *)
Record DirEntry : Type :=
  { path : string; IsDir : bool; walk_err : option string }.

(** The filesystem and the watcher's kernel side at one moment:
    the walk of a tree, whether [os.Stat] succeeds on a directory, and the
    error, if any, of registering a watch. *)
Record FS : Type :=
  { WalkDir : string -> list DirEntry;
    Stat_IsDir : string -> bool;
    Add_err : string -> option string }.

(** The host: the current user's home directory, [filepath.Rel], which
    gives the empty string when it fails, and the size limit of the regexp
    engine the program is linked with. *)
Record Host : Type :=
  { HomeDir : string;
    Rel : string -> string -> string;
    TooLarge : string -> bool }.

(** *** The rule runner *)

Record ruleRunner : Type :=
  { rule : SyncRule;
    srcRoot : string;
    ign : list Regexp.Regexp;
    log : Logging.Entry }.

Definition newRuleRunner (h : Host) (rule : SyncRule)
  : result Regexp.ErrorCode ruleRunner :=
  let src := Util.Expand (HomeDir h) (Src rule) in
  match Ignore.Compile_checked (TooLarge h) src (Ignore rule) with
  | Err err => Err err
  | Ok ign =>
      Ok {| rule := rule;
            srcRoot := src;
            ign := ign;
            log := Logging.WithField [] "rule" src |}
  end.

(** [syncOnce] makes one call of [gsutil.RSync]. *)
Definition syncOnce (rr : ruleRunner) (reason : string) : Gsutil.call :=
  let l := Logging.WithField (log rr) "reason" reason in
  {| Gsutil.src := srcRoot rr;
     Gsutil.dst := Dst (rule rr);
     Gsutil.deleteRemote := true;
     Gsutil.ignoreRegex := ign rr;
     Gsutil.log := l |}.

Fixpoint containsDir (slice : list SyncDirection) (v : SyncDirection) : bool :=
  match slice with
  | [] => false
  | d :: slice' => if String.eqb d v then true else containsDir slice' v
  end.

(** The watcher, as the log of the calls of [Add] that succeeded, oldest
    first: a directory added twice is listed twice, and a watch that
    fsnotify drops by itself, when its directory is removed, stays in the
    log. *)
Definition Watcher : Type := list string.

(** The walk of [addRecursive]: the callback returns the first error, which
    stops the walk. *)
Fixpoint add_entries (fs : FS) (w : Watcher) (entries : list DirEntry)
  : Watcher * option string :=
  match entries with
  | [] => (w, None)
  | d :: entries' =>
      match walk_err d with
      | Some err => (w, Some err)
      | None =>
          if IsDir d then
            match Add_err fs (path d) with
            | Some err => (w, Some err)
            | None => add_entries fs (w ++ [path d]) entries'
            end
          else add_entries fs w entries'
      end
  end.

Definition addRecursive (fs : FS) (w : Watcher) (root : string)
  : Watcher * option string :=
  add_entries fs w (WalkDir fs root).

(** What the runner logs. *)
Inductive message : Type :=
| MsgIgnored (op : Op) (rel : string)
| MsgEvent (op : Op) (rel : string)
| MsgDebounceStarted (d : Duration) (reason : string)
| MsgPollingEnabled (d : Duration)
| MsgWatcherError (err : string)
| MsgStopping.

(** What the runner does, besides registering watches. *)
Inductive action : Type :=
| Log (lvl : Logging.Level) (e : Logging.Entry) (m : message)
| RSync (c : Gsutil.call)         (* a call of gsutil.RSync *)
| AfterFunc (d : Duration)        (* a timer is created *)
| TimerReset (d : Duration)       (* the timer is reset *)
| NewTicker (d : Duration)        (* a ticker is created *)
| TickerStop
| WatcherClose.

Definition handleEvent (h : Host) (rr : ruleRunner) (ev : Event) (fs : FS)
  (w : Watcher) : Watcher * list action :=
  let rel := Rel h (srcRoot rr) (Name ev) in
  let rel := Filepath.ToSlash rel in
  if Ignore.Match rel (ign rr) then
    (w, [Log Logging.DebugLevel (log rr) (MsgIgnored (EvOp ev) rel)])
  else
    let acts := [Log Logging.DebugLevel (log rr) (MsgEvent (EvOp ev) rel)] in
    if negb (N.eqb (N.land (EvOp ev) Create) 0) && Stat_IsDir fs (Name ev)
    then (fst (addRecursive fs w (Name ev)), acts)
    else (w, acts).

(** *** Timers *)

(** The one [*time.Timer] of a runner: when it fires, and whether it is
    still to fire. *)
Record Timer : Type := { when : Z; pending : bool }.

(** The time at which a timer set at [now] for [d] fires: at once when [d]
    is not positive. *)
Definition deadline (now : Z) (d : Duration) : Z :=
  if (d <=? 0)%Z then now else (now + d)%Z.

(** *** The run loop *)

Record state : Type :=
  { watcher : Watcher;
    timer : option Timer;           (* var timer *time.Timer, nil at first *)
    ticker : option Duration;       (* var ticker *time.Ticker *)
    trace : list (Z * action);      (* what was done, and when *)
    stopped : bool }.

Definition emit (now : Z) (acts : list action) (st : state) : state :=
  {| watcher := watcher st;
     timer := timer st;
     ticker := ticker st;
     trace := trace st ++ map (fun a => (now, a)) acts;
     stopped := stopped st |}.

(** The function given to [time.AfterFunc] runs when the timer expires. *)
Definition fire (rr : ruleRunner) (now : Z) (st : state) : state :=
  match timer st with
  | Some tm =>
      if pending tm && (when tm <=? now)%Z then
        {| watcher := watcher st;
           timer := Some {| when := when tm; pending := false |};
           ticker := ticker st;
           trace := trace st ++ [(when tm, RSync (syncOnce rr "debounce"))];
           stopped := stopped st |}
      else st
  | None => st
  end.

Definition resetDebounce (rr : ruleRunner) (now : Z) (reason : string)
  (st : state) : state :=
  let d := DebounceWindow (rule rr) in
  let tm := Some {| when := deadline now d; pending := true |} in
  match timer st with
  | None =>
      {| watcher := watcher st;
         timer := tm;
         ticker := ticker st;
         trace := trace st
                  ++ [(now, AfterFunc d);
                      (now, Log Logging.DebugLevel (log rr)
                                (MsgDebounceStarted d reason))];
         stopped := stopped st |}
  | Some _ =>
      {| watcher := watcher st;
         timer := tm;
         ticker := ticker st;
         trace := trace st ++ [(now, TimerReset d)];
         stopped := stopped st |}
  end.

(** What the [select] of the main loop can receive. *)
Inductive input : Type :=
| FsEvent (ev : Event) (fs : FS)   (* <-w.Events, and the filesystem then *)
| FsError (err : string)           (* <-w.Errors *)
| Tick                             (* <-tickerTick(ticker) *)
| Stop                             (* <-stop *).

(** One iteration of the main loop, entered at time [now]; the timer may
    have expired in the meantime.  A nil ticker delivers nothing. *)
Definition iteration (h : Host) (rr : ruleRunner) (st : state)
  (ti : Z * input) : state :=
  let now := fst ti in
  let st := fire rr now st in
  if stopped st then st
  else
    match snd ti with
    | FsEvent ev fs =>
        let (w, acts) := handleEvent h rr ev fs (watcher st) in
        let st := emit now acts
                    {| watcher := w;
                       timer := timer st;
                       ticker := ticker st;
                       trace := trace st;
                       stopped := false |} in
        resetDebounce rr now (OpString (EvOp ev)) st
    | FsError err =>
        emit now [Log Logging.WarnLevel (log rr) (MsgWatcherError err)] st
    | Tick =>
        match ticker st with
        | Some _ => emit now [RSync (syncOnce rr "periodic pull")] st
        | None => st
        end
    | Stop =>
        let closing := match ticker st with
                       | Some _ => [TickerStop; WatcherClose]
                       | None => [WatcherClose]
                       end in
        let st := emit now (Log Logging.InfoLevel (log rr) MsgStopping
                            :: closing) st in
        {| watcher := watcher st;
           timer := timer st;
           ticker := ticker st;
           trace := trace st;
           stopped := true |}
    end.

Definition loop (h : Host) (rr : ruleRunner) (st : state)
  (inputs : list (Z * input)) : state :=
  fold_left (iteration h rr) inputs st.

(** How [run] leaves its first part: it returns an error, it panics, or it
    enters the main loop. *)
Inductive outcome : Type :=
| Returned (err : string)
| Panicked (msg : string)
| Entered (st : state).

(** [run] up to the main loop, started at time [now]; [new_watcher_err] is
    the error of [fsnotify.NewWatcher], if any.  [time.NewTicker] panics on
    an interval that is not positive. *)
Definition start (rr : ruleRunner) (now : Z) (new_watcher_err : option string)
  (fs : FS) : outcome :=
  match new_watcher_err with
  | Some err => Returned err
  | None =>
      match addRecursive fs [] (srcRoot rr) with
      | (_, Some err) => Returned err
      | (w, None) =>
          let initial := [(now, RSync (syncOnce rr "initial"))] in
          let dirs := Directions (rule rr) in
          if containsDir dirs RemoteToLocal || containsDir dirs Full then
            let d := RemotePollWindow (rule rr) in
            if (d <=? 0)%Z then
              Panicked "non-positive interval for NewTicker"
            else
              Entered {| watcher := w;
                         timer := None;
                         ticker := Some d;
                         trace := initial
                                  ++ [(now, NewTicker d);
                                      (now, Log Logging.InfoLevel (log rr)
                                                (MsgPollingEnabled d))];
                         stopped := false |}
          else
            Entered {| watcher := w;
                       timer := None;
                       ticker := None;
                       trace := initial;
                       stopped := false |}
      end
  end.

(** [run]: the first part, then the main loop over what it receives.  The
    loop has returned nil when the state is [stopped]. *)
Definition run (h : Host) (rr : ruleRunner) (now : Z)
  (new_watcher_err : option string) (fs : FS) (inputs : list (Z * input))
  : outcome :=
  match start rr now new_watcher_err fs with
  | Entered st => Entered (loop h rr st inputs)
  | Returned err => Returned err
  | Panicked msg => Panicked msg
  end.

(** What [run] has done when it leaves its first part, whichever way: the
    initial sync is made before the ticker is created. *)
Definition start_trace (rr : ruleRunner) (now : Z)
  (new_watcher_err : option string) (fs : FS) : list (Z * action) :=
  match new_watcher_err with
  | Some _ => []
  | None =>
      match addRecursive fs [] (srcRoot rr) with
      | (_, Some _) => [(now, WatcherClose)]
      | (_, None) =>
          let initial := [(now, RSync (syncOnce rr "initial"))] in
          let dirs := Directions (rule rr) in
          if containsDir dirs RemoteToLocal || containsDir dirs Full then
            let d := RemotePollWindow (rule rr) in
            if (d <=? 0)%Z then initial ++ [(now, WatcherClose)]
            else initial
                 ++ [(now, NewTicker d);
                     (now, Log Logging.InfoLevel (log rr)
                               (MsgPollingEnabled d))]
          else initial
      end
  end.

(** *** StartAll *)

Section OnStart.
Context {E : Type}.
(** The constructor of runners the hook calls. *)
Variable construct : SyncRule -> result E ruleRunner.

(** The loop of the [OnStart] hook: [started] lists the runners whose
    goroutine was launched; an error of the constructor is returned at
    once. *)
Fixpoint start_rules (rules : list SyncRule) (started : list ruleRunner)
  : list ruleRunner * option E :=
  match rules with
  | [] => (started, None)
  | r :: rules' =>
      if negb (Enabled r) then start_rules rules' started
      else
        match construct r with
        | Err err => (started, Some err)
        | Ok runner => start_rules rules' (started ++ [runner])
        end
  end.

End OnStart.

Definition OnStart (h : Host) (cfg : Config)
  : list ruleRunner * option Regexp.ErrorCode :=
  start_rules (newRuleRunner h) (Sync cfg) [].

(** What the goroutine of one runner meets: the time at which it starts,
    the error of [fsnotify.NewWatcher], if any, the filesystem, and what
    its [select] receives. *)
Record world : Type :=
  { started_at : Z;
    watcher_err : option string;
    files : FS;
    received : list (Z * input) }.

(** The body of a goroutine of [OnStart]: [rr.run(stop)]. *)
Definition go (h : Host) (env : ruleRunner -> world) (rr : ruleRunner)
  : outcome :=
  run h rr (started_at (env rr)) (watcher_err (env rr)) (files (env rr))
      (received (env rr)).

(** The goroutines of [OnStart]: one for each runner that was started, and
    no other. *)
Definition goroutines (h : Host) (cfg : Config) (env : ruleRunner -> world)
  : list outcome :=
  map (go h env) (fst (OnStart h cfg)).

End Watcher.

(** ** Definitions used by the statements and the proofs *)

(** Compiling a pattern list and matching a path against the result. *)
Definition match_compiled (patterns : list string) (rel : string)
  : option bool :=
  match Ignore.Compile "" patterns with
  | Ok regexes => Some (Ignore.Match rel regexes)
  | Err _ => None
  end.


(** The text [globToRegex] builds, seen as a sequence of tokens: a character
    that needs no quoting, a quoted metacharacter, or a piece of expression
    put in by a replacement. *)
Module Tokens.

Inductive tok : Type :=
| Plain (c : ascii)
| Quoted (c : ascii)
| Raw (s : string).

Definition render_tok (t : tok) : string :=
  match t with
  | Plain c => String c EmptyString
  | Quoted c => String "\" (String c EmptyString)
  | Raw s => s
  end.

Fixpoint render (ts : list tok) : string :=
  match ts with
  | [] => EmptyString
  | t :: ts' => (render_tok t ++ render ts')%string
  end.

Definition wf (t : tok) : Prop :=
  match t with
  | Plain c => Regexp.special c = false
  | Quoted c => Regexp.special c = true
  | Raw s => s = ".*" \/ s = "[^/]*" \/ s = "."
  end.

Definition of_char (c : ascii) : tok :=
  if Regexp.special c then Quoted c else Plain c.

Fixpoint of_string (s : string) : list tok :=
  match s with
  | EmptyString => []
  | String c s' => of_char c :: of_string s'
  end.

(** The nodes the parser reads from a token. *)
Definition node_of (t : tok) : Regexp.node :=
  match t with
  | Plain c | Quoted c => Regexp.One (Regexp.Lit c)
  | Raw s =>
      if String.eqb s ".*" then Regexp.Star Regexp.AnyNotNL
      else if String.eqb s "." then Regexp.One Regexp.AnyNotNL
      else Regexp.Star (Regexp.Class true ["/"%char])
  end.

End Tokens.

(** The expression compiled from one pattern. *)
Definition regex_of (g : string) : Regexp.Regexp :=
  let e := Ignore.globToRegex (Filepath.ToSlash (Filepath.Clean g)) in
  {| Regexp.expr := e;
     Regexp.prog := match Regexp.parse e with
                    | Ok p => p
                    | Err _ => []
                    end |}.

(** Whether the engine takes the expression of a pattern, and the error it
    gives when it does not. *)
Definition accepted (too_large : string -> bool) (g : string) : bool :=
  let e := Regexp.expr (regex_of g) in
  Utf8.ValidString e && negb (too_large e).

Definition refusal (g : string) : Regexp.ErrorCode :=
  if Utf8.ValidString (Regexp.expr (regex_of g))
  then Regexp.ErrLarge else Regexp.ErrInvalidUTF8.

(** The first pattern of a list the engine refuses. *)
Fixpoint first_refused (too_large : string -> bool) (patterns : list string)
  : option string :=
  match patterns with
  | [] => None
  | g :: patterns' =>
      if accepted too_large g then first_refused too_large patterns'
      else Some g
  end.

(** The runner of a rule whose patterns the engine takes. *)
Definition runner_of (h : Watcher.Host) (r : Config.SyncRule)
  : Watcher.ruleRunner :=
  {| Watcher.rule := r;
     Watcher.srcRoot := Util.Expand (Watcher.HomeDir h) (Config.Src r);
     Watcher.ign := map regex_of (Config.Ignore r);
     Watcher.log := [("rule", Util.Expand (Watcher.HomeDir h) (Config.Src r))] |}.

(** Reading traces of the run loop. *)
Module Trace.
Import Watcher.

(** The reason a call of [RSync] was logged with. *)
Definition tagged (reason : string) (c : Gsutil.call) : bool :=
  existsb (fun kv => String.eqb (fst kv) "reason" && String.eqb (snd kv) reason)
          (Gsutil.log c).

Definition is_sync (reason : string) (ta : Z * action) : bool :=
  match snd ta with
  | RSync c => tagged reason c
  | _ => false
  end.

(** The times of the synchronizations tagged [reason]. *)
Definition syncs (reason : string) (tr : list (Z * action)) : list Z :=
  map fst (filter (is_sync reason) tr).

Definition is_AfterFunc (ta : Z * action) : bool :=
  match snd ta with
  | AfterFunc _ => true
  | _ => false
  end.

(** How many timers were created. *)
Definition timers_created (tr : list (Z * action)) : nat :=
  List.length (filter is_AfterFunc tr).




(** No timer of the state expires at or before [t]. *)
Definition quiet_until (st : state) (t : Z) : Prop :=
  match timer st with
  | Some tm => pending tm = true -> (t < when tm)%Z
  | None => True
  end.


(** The path of an event as [handleEvent] matches it. *)
Definition rel_of (h : Host) (rr : ruleRunner) (ev : Event) : string :=
  Filepath.ToSlash (Rel h (srcRoot rr) (Name ev)).

Definition ignored (h : Host) (rr : ruleRunner) (ev : Event) : bool :=
  Ignore.Match (rel_of h rr ev) (ign rr).

Definition with_directions (r : Config.SyncRule)
  (dirs : list Config.SyncDirection) : Config.SyncRule :=
  {| Config.Src := Config.Src r;
     Config.Dst := Config.Dst r;
     Config.Directions := dirs;
     Config.Ignore := Config.Ignore r;
     Config.Enabled := Config.Enabled r;
     Config.DebounceWindow := Config.DebounceWindow r;
     Config.RemotePollWindow := Config.RemotePollWindow r |}.

End Trace.

(** A small configuration to evaluate the definitions on. *)
Module Sample.
Import Config Watcher.

(** [filepath.Rel] for a target below the base. *)
Definition rel_below (base targ : string) : string :=
  if GoStrings.HasPrefix targ (base ++ "/")
  then String.substring (String.length base + 1)
                        (String.length targ - String.length base - 1) targ
  else "".

Definition host : Host :=
  {| HomeDir := "/home/u";
     Rel := rel_below;
     TooLarge := fun e => Nat.ltb 4096 (String.length e) |}.

(** A tree with the root as its only directory. *)
Definition fs : FS :=
  {| WalkDir := fun root => [{| path := root; IsDir := true; walk_err := None |}];
     Stat_IsDir := fun _ => false;
     Add_err := fun _ => None |}.

Definition book : SyncRule :=
  {| Src := "~/Projects/book";
     Dst := "gs://my-bucket/book";
     Directions := [LocalToRemote];
     Ignore := ["**/*.tmp"; "cache/**"];
     Enabled := true;
     DebounceWindow := (3 * Second)%Z;
     RemotePollWindow := (60 * Second)%Z |}.

Definition mirror : SyncRule :=
  {| Src := "/data";
     Dst := "gs://my-bucket/data";
     Directions := [Full];
     Ignore := ["*.log"];
     Enabled := true;
     DebounceWindow := (3 * Second)%Z;
     RemotePollWindow := (60 * Second)%Z |}.

Definition disabled : SyncRule :=
  {| Src := "/tmp/x";
     Dst := "gs://my-bucket/x";
     Directions := [RemoteToLocal];
     Ignore := [];
     Enabled := false;
     DebounceWindow := 0%Z;
     RemotePollWindow := 0%Z |}.

(** The runner of a rule. *)
Definition runner (r : SyncRule) : ruleRunner :=
  match newRuleRunner host r with
  | Ok rr => rr
  | Err _ => {| rule := r; srcRoot := ""; ign := []; log := [] |}
  end.

(** The state in which the runner of a rule enters its main loop at time
    0. *)
Definition entered (r : SyncRule) : state :=
  match start (runner r) 0%Z None fs with
  | Entered st => st
  | _ => {| watcher := []; timer := None; ticker := None; trace := [];
            stopped := true |}
  end.

Definition write (name : string) : Event := {| Name := name; EvOp := Write |}.

(** A constructor of runners that refuses a rule without a source. *)
Definition strict (r : SyncRule) : result string ruleRunner :=
  if String.eqb (Src r) "" then Err "no source"
  else Ok (runner r).

Definition no_source : SyncRule :=
  {| Src := "";
     Dst := "gs://my-bucket/y";
     Directions := [LocalToRemote];
     Ignore := [];
     Enabled := true;
     DebounceWindow := 0%Z;
     RemotePollWindow := 0%Z |}.

(** The rule of the README's example, which sets neither window. *)
Definition readme_rule : yamlRule :=
  {| y_src := Some "~/Projects/book";
     y_dst := Some "gs://my-bucket/book";
     y_directions := Some ["local_to_remote"];
     y_ignore := Some ["**/*.tmp"; "cache/**"];
     y_enabled := Some true;
     y_debounce_window := None;
     y_remote_poll_window := None |}.

End Sample.

(** The expression of a glob, written in one pass over its characters. *)
Module Glob.
Import Tokens.

Fixpoint translate (g : string) : string :=
  match g with
  | EmptyString => EmptyString
  | String c g' =>
      if Ascii.eqb c "*" then
        match g' with
        | String c' g'' =>
            if Ascii.eqb c' "*" then (".*" ++ translate g'')%string
            else ("[^/]*" ++ translate g')%string
        | EmptyString => ("[^/]*" ++ translate g')%string
        end
      else if Ascii.eqb c "?" then String "." (translate g')
      else if Regexp.special c then String "\" (String c (translate g'))
      else String c (translate g')
  end.

(** The nodes of that expression, between the anchors. *)
Fixpoint nodes (g : string) : list Regexp.node :=
  match g with
  | EmptyString => []
  | String c g' =>
      if Ascii.eqb c "*" then
        match g' with
        | String c' g'' =>
            if Ascii.eqb c' "*" then Regexp.Star Regexp.AnyNotNL :: nodes g''
            else Regexp.Star (Regexp.Class true ["/"%char]) :: nodes g'
        | EmptyString => Regexp.Star (Regexp.Class true ["/"%char]) :: nodes g'
        end
      else if Ascii.eqb c "?" then Regexp.One Regexp.AnyNotNL :: nodes g'
      else Regexp.One (Regexp.Lit c) :: nodes g'
  end.

Definition is_quoted (x : ascii) (t : tok) : bool :=
  match t with
  | Quoted c => Ascii.eqb x c
  | _ => false
  end.

(** The tokens after two quoted stars in a row were replaced. *)
Fixpoint pair_stars (ts : list tok) : list tok :=
  match ts with
  | [] => []
  | t :: ts' =>
      match ts' with
      | t' :: ts'' =>
          if is_quoted "*" t && is_quoted "*" t'
          then Raw ".*" :: pair_stars ts''
          else t :: pair_stars ts'
      | [] => [t]
      end
  end.

(** The tokens after a quoted [x] was replaced by [new]. *)
Definition unquote (x : ascii) (new : string) (t : tok) : tok :=
  if is_quoted x t then Raw new else t.

(** The tokens of the expression of [g]. *)
Definition final (g : string) : list tok :=
  map (unquote "?" ".") (map (unquote "*" "[^/]*") (pair_stars (of_string g))).

Definition is_wildcard (c : ascii) : bool :=
  Ascii.eqb c "*" || Ascii.eqb c "?".

(** A pattern without star or question mark. *)
Definition literal (g : string) : bool :=
  GoStrings.all_chars (fun c => negb (is_wildcard c)) g.

Fixpoint count (x : ascii) (s : string) : nat :=
  match s with
  | EmptyString => 0
  | String c s' => (if Ascii.eqb c x then 1 else 0) + count x s'
  end.

(** A pattern with neither a question mark nor two stars in a row. *)
Fixpoint single_stars (g : string) : bool :=
  match g with
  | EmptyString => true
  | String c g' =>
      negb (Ascii.eqb c "?")
      && match g' with
         | String c' _ => negb (Ascii.eqb c "*" && Ascii.eqb c' "*")
         | EmptyString => true
         end
      && single_stars g'
  end.

End Glob.

(** Reading the inputs of the run loop. *)
Module Inputs.
Import Watcher.

Definition is_Stop (ti : Z * input) : bool :=
  match snd ti with Stop => true | _ => false end.

Definition is_Tick (ti : Z * input) : bool :=
  match snd ti with Tick => true | _ => false end.

Definition is_FsEvent (ti : Z * input) : bool :=
  match snd ti with FsEvent _ _ => true | _ => false end.

(** The inputs do not include the stop signal. *)
Definition no_stop (inputs : list (Z * input)) : bool :=
  forallb (fun ti => negb (is_Stop ti)) inputs.

(** The times of the ticks received. *)
Definition tick_times (inputs : list (Z * input)) : list Z :=
  map fst (filter is_Tick inputs).

(** The number of filesystem events received. *)
Definition event_count (inputs : list (Z * input)) : nat :=
  List.length (filter is_FsEvent inputs).

(** The directories a walk visits, in its order. *)
Definition directories (entries : list DirEntry) : list string :=
  map path (filter IsDir entries).

(** What the callback of [addRecursive] returns on one entry: the error of
    the walk, or that of [Add] on a directory. *)
Definition entry_error (fs : FS) (d : DirEntry) : option string :=
  match walk_err d with
  | Some err => Some err
  | None => if IsDir d then Add_err fs (path d) else None
  end.

(** Whether the timer is still to fire. *)
Definition pending_timers (st : state) : nat :=
  match timer st with
  | Some tm => if pending tm then 1 else 0
  | None => 0
  end.

End Inputs.

(** More to evaluate the definitions on. *)
Module Sample2.
Import Config Watcher.

(** A tree with a file and a subdirectory below each root. *)
Definition tree : FS :=
  {| WalkDir := fun root =>
       [{| path := root; IsDir := true; walk_err := None |};
        {| path := (root ++ "/f.txt")%string; IsDir := false; walk_err := None |};
        {| path := (root ++ "/sub")%string; IsDir := true; walk_err := None |}];
     Stat_IsDir := fun _ => true;
     Add_err := fun _ => None |}.

Definition mkdir (name : string) : Event := {| Name := name; EvOp := Create |}.

(** A tree one of whose directories cannot be watched. *)
Definition locked : FS :=
  {| WalkDir := fun root =>
       [{| path := root; IsDir := true; walk_err := None |};
        {| path := (root ++ "/f.txt")%string; IsDir := false; walk_err := None |};
        {| path := (root ++ "/sub")%string; IsDir := true; walk_err := None |};
        {| path := (root ++ "/sub/deep")%string; IsDir := true;
           walk_err := None |}];
     Stat_IsDir := fun _ => true;
     Add_err := fun p => if String.eqb p "/data/sub"
                         then Some "permission denied" else None |}.

(** A rule that polls the remote side and sets no window. *)
Definition two_way : yamlRule :=
  {| y_src := Some "/data";
     y_dst := Some "gs://my-bucket/data";
     y_directions := Some ["full"];
     y_ignore := None;
     y_enabled := Some true;
     y_debounce_window := None;
     y_remote_poll_window := None |}.

(** A rule without the [enabled] key. *)
Definition unmarked : yamlRule :=
  {| y_src := Some "/data";
     y_dst := Some "gs://my-bucket/data";
     y_directions := Some ["local_to_remote"];
     y_ignore := None;
     y_enabled := None;
     y_debounce_window := None;
     y_remote_poll_window := None |}.

(** A constructor of runners that always fails. *)
Definition refuse (r : SyncRule) : result string ruleRunner := Err "refused".

(** A pattern that is not valid UTF-8: the byte 255 begins no character. *)
Definition garbled_pattern : string :=
  String "a" (String (ascii_of_nat 255) "b").

(** An enabled rule with that pattern among its exclusions. *)
Definition garbled : SyncRule :=
  {| Src := "/srv";
     Dst := "gs://my-bucket/srv";
     Directions := [LocalToRemote];
     Ignore := ["*.log"; garbled_pattern; "c"];
     Enabled := true;
     DebounceWindow := (3 * Second)%Z;
     RemotePollWindow := 0%Z |}.

(** An engine that takes expressions of at most twelve bytes. *)
Definition tiny (e : string) : bool := Nat.ltb 12 (String.length e).

(** Every goroutine starts at time 0 on the tree above and receives one
    stop signal. *)
Definition quiet (rr : ruleRunner) : world :=
  {| started_at := 0%Z;
     watcher_err := None;
     files := tree;
     received := [(9%Z, Stop)] |}.

End Sample2.

(** * Properties *)

(** ** Evaluations *)

Example Clean_examples :
  map Filepath.Clean ["**/*.tmp"; "cache/**"; "a//b/./c/.."; "../a/../../b/";
                      "/a/../../b"; "./"; ""]
  = ["**/*.tmp"; "cache/**"; "a/b"; "../../b"; "/b"; "."; "."].
Proof. reflexivity. Qed.

Example ReplaceAll_examples :
  GoStrings.ReplaceAll "aaaa" "aa" "b" = "bb"
  /\ GoStrings.ReplaceAll "xaaay" "aa" "b" = "xbay"
  /\ GoStrings.ReplaceAll "abc" "" "-" = "-a-b-c-".
Proof. repeat split. Qed.

Example globToRegex_examples :
  map Ignore.globToRegex ["**/*.tmp"; "cache/**"; "a?b"; "***"; "[x]{1}"; "\**"]
  = ["^.*/[^/]*\.tmp$"; "^cache/.*$"; "^a.b$"; "^.*[^/]*$"; "^\[x\]\{1\}$";
     "^\\.*$"].
Proof. reflexivity. Qed.

(** The parser does reject expressions. *)
Example parse_rejects :
  Regexp.parse "a**" = Err Regexp.ErrInvalidRepeatOp
  /\ Regexp.parse "*a" = Err Regexp.ErrMissingRepeatArgument
  /\ Regexp.parse "a\" = Err Regexp.ErrTrailingBackslash
  /\ Regexp.parse "[abc" = Err Regexp.ErrMissingBracket
  /\ Regexp.parse "a|b" = Err Regexp.ErrOutsideFragment.
Proof. repeat split. Qed.

Example Expand_examples :
  Util.Expand "/home/u" "~/Projects/book" = "/home/u/Projects/book"
  /\ Util.Expand "/home/u" "/data" = "/data"
  /\ Util.Expand "/home/u" "~" = "/home/u".
Proof. repeat split. Qed.

Example OpString_examples :
  map Watcher.OpString [1%N; 3%N; 0%N; 24%N]
  = ["CREATE"; "CREATE|WRITE"; "[no events]"; "RENAME|CHMOD"].
Proof. reflexivity. Qed.

(** ** Strings *)

Lemma append_assoc (a b c : string) : ((a ++ b) ++ c = a ++ (b ++ c))%string.
Proof. induction a as [|x a IH]; simpl; [reflexivity | now rewrite IH]. Qed.

(** ** Quoting, replacing and parsing *)

Section GlobToRegex.
Import Tokens.

Lemma special_cases (c : ascii) :
  Regexp.special c = true ->
  In c ["\"; "."; "+"; "*"; "?"; "("; ")"; "|"; "["; "]"; "{"; "}"; "^"; "$"]%char.
Proof.
  unfold Regexp.special. intros H.
  apply existsb_exists in H. destruct H as [x [Hin Heq]].
  apply Ascii.eqb_eq in Heq. now subst x.
Qed.

Lemma not_special (c x : ascii) :
  Regexp.special c = false -> Regexp.special x = true -> Ascii.eqb c x = false.
Proof.
  intros Hc Hx. destruct (Ascii.eqb c x) eqn:E; [|reflexivity].
  apply Ascii.eqb_eq in E. subst. congruence.
Qed.

Lemma QuoteMeta_render (g : string) :
  Regexp.QuoteMeta g = render (of_string g).
Proof.
  induction g as [|c g IH]; simpl; [reflexivity|].
  unfold of_char. destruct (Regexp.special c); simpl; now rewrite IH.
Qed.

Lemma of_string_wf (g : string) : Forall wf (of_string g).
Proof.
  induction g as [|c g IH]; simpl; constructor; [|exact IH].
  unfold of_char. destruct (Regexp.special c) eqn:E; simpl; assumption.
Qed.

End GlobToRegex.

Section Replacing.
Import Tokens.
Import GoStrings.

(** A token's text is parsed into its node. *)
Lemma parse_tok (t : tok) (acc : list Regexp.node) (tail : string) :
  wf t ->
  Regexp.parse_from Regexp.PNormal acc (render_tok t ++ tail)
  = Regexp.parse_from Regexp.PNormal (node_of t :: acc) tail.
Proof.
  destruct t as [c|c|s]; simpl; intros H.
  - assert (E : forall x, Regexp.special x = true -> Ascii.eqb c x = false)
      by (intros x; now apply not_special).
    unfold Regexp.parse_char; simpl.
    rewrite !E by reflexivity. reflexivity.
  - apply special_cases in H. simpl in H.
    repeat (destruct H as [H|H]; [subst c; reflexivity|]). contradiction.
  - destruct H as [H|[H|H]]; subst s; reflexivity.
Qed.

Lemma parse_render (ts : list tok) :
  Forall wf ts ->
  forall acc tail,
    Regexp.parse_from Regexp.PNormal acc (render ts ++ tail)
    = Regexp.parse_from Regexp.PNormal (rev (map node_of ts) ++ acc) tail.
Proof.
  induction 1 as [|t ts Ht _ IH]; intros acc tail; simpl; [reflexivity|].
  rewrite append_assoc, parse_tok by exact Ht.
  rewrite IH, <- app_assoc. reflexivity.
Qed.

(** No token's text starts with a star or a question mark. *)
Lemma head_render (ts : list tok) (x : ascii) (p : string) :
  Forall wf ts -> x = "*"%char \/ x = "?"%char ->
  HasPrefix (render ts) (String x p) = false.
Proof.
  intros Hts Hx. destruct Hts as [|t ts Ht _]; [reflexivity|].
  destruct t as [c|c|s]; simpl in *.
  - assert (E : Ascii.eqb x c = false).
    { rewrite Ascii.eqb_sym. apply not_special; [exact Ht|].
      destruct Hx; subst x; reflexivity. }
    now rewrite E.
  - destruct Hx; subst x; reflexivity.
  - destruct Ht as [H|[H|H]]; subst s; destruct Hx; subst x; reflexivity.
Qed.

Section Steps.
(** The replaced text starts with a backslash. *)
Variables (x : ascii) (p new : string).
Let old := String "\" (String x p).

Lemma step_plain (c : ascii) (rest : string) :
  Regexp.special c = false ->
  replace_from old new 0 (String c rest)
  = String c (replace_from old new 0 rest).
Proof.
  intros H. unfold old. cbn [replace_from HasPrefix].
  assert (E : Ascii.eqb "\" c = false)
    by (rewrite Ascii.eqb_sym; now apply not_special).
  now rewrite E.
Qed.

Lemma step_raw (s rest : string) :
  wf (Raw s) ->
  replace_from old new 0 (s ++ rest) = (s ++ replace_from old new 0 rest)%string.
Proof. intros [H|[H|H]]; subst s; reflexivity. Qed.

Lemma step_quoted_skip (c : ascii) (rest : string) :
  HasPrefix (String c rest) (String x p) = false ->
  HasPrefix rest (String x p) = false ->
  replace_from old new 0 (String "\" (String c rest))
  = String "\" (String c (replace_from old new 0 rest)).
Proof.
  intros H1 H2.
  change (replace_from old new 0 (String "\" (String c rest)))
    with (if HasPrefix (String c rest) (String x p)
          then (new ++ replace_from old new (String.length old - 1) (String c rest))%string
          else String "\" (replace_from old new 0 (String c rest))).
  rewrite H1. f_equal.
  change (replace_from old new 0 (String c rest))
    with (if (if Ascii.eqb "\" c then HasPrefix rest (String x p) else false)
          then (new ++ replace_from old new (String.length old - 1) rest)%string
          else String c (replace_from old new 0 rest)).
  rewrite H2. now destruct (Ascii.eqb "\" c).
Qed.

Lemma step_quoted_match (c : ascii) (rest : string) :
  HasPrefix (String c rest) (String x p) = true ->
  replace_from old new 0 (String "\" (String c rest))
  = (new ++ replace_from old new (S (String.length p)) (String c rest))%string.
Proof.
  intros H1.
  change (replace_from old new 0 (String "\" (String c rest)))
    with (if HasPrefix (String c rest) (String x p)
          then (new ++ replace_from old new (String.length old - 1) (String c rest))%string
          else String "\" (replace_from old new 0 (String c rest))).
  rewrite H1. reflexivity.
Qed.

End Steps.

(** Replacing one quoted character by a piece of expression keeps the text
    a sequence of tokens. *)
Lemma replace_quoted (x : ascii) (new : string) (ts : list tok) :
  x = "*"%char \/ x = "?"%char -> wf (Raw new) -> Forall wf ts ->
  exists ts', Forall wf ts'
    /\ replace_from (String "\" (String x "")) new 0 (render ts) = render ts'.
Proof.
  intros Hx Hnew. induction 1 as [|t ts Ht Hts [ts' [Hwf IH]]].
  - exists []. split; [constructor | reflexivity].
  - destruct t as [c|c|s]; simpl render.
    + exists (Plain c :: ts'). split; [now constructor|].
      simpl in Ht. rewrite step_plain by exact Ht. simpl. now rewrite IH.
    + destruct (HasPrefix (String c (render ts)) (String x "")) eqn:E.
      * exists (Raw new :: ts'). split; [now constructor|].
        rewrite step_quoted_match by exact E. simpl. now rewrite IH.
      * exists (Quoted c :: ts'). split; [now constructor|].
        rewrite step_quoted_skip; [simpl; now rewrite IH | exact E |].
        now apply head_render.
    + exists (Raw s :: ts'). split; [now constructor|].
      rewrite step_raw by exact Ht. simpl. now rewrite IH.
Qed.

(** A text of tokens that starts with a quoted star. *)
Lemma starts_quoted_star (ts : list tok) :
  Forall wf ts -> HasPrefix (render ts) "\*" = true ->
  exists ts', ts = Quoted "*" :: ts'.
Proof.
  intros Hts H. destruct Hts as [|t ts Ht _]; [discriminate|].
  destruct t as [c|c|s]; cbn [render render_tok append HasPrefix wf] in *.
  - assert (E : Ascii.eqb "\" c = false)
      by (rewrite Ascii.eqb_sym; now apply not_special).
    rewrite E in H. discriminate.
  - destruct (Ascii.eqb "*" c) eqn:E; [|discriminate].
    apply Ascii.eqb_eq in E. subst c. now exists ts.
  - destruct Ht as [Hs|[Hs|Hs]]; subst s; discriminate.
Qed.

(** Replacing two quoted stars in a row does too. *)
Lemma replace_two_stars (n : nat) (ts : list tok) :
  List.length ts <= n -> Forall wf ts ->
  exists ts', Forall wf ts'
    /\ replace_from "\*\*" ".*" 0 (render ts) = render ts'.
Proof.
  revert ts. induction n as [|n IH]; intros ts Hlen Hts.
  - destruct ts; [|simpl in Hlen; lia].
    exists []. split; [constructor | reflexivity].
  - destruct Hts as [|t ts Ht Hts].
    { exists []. split; [constructor | reflexivity]. }
    simpl in Hlen.
    assert (Hraw : wf (Raw ".*")) by (left; reflexivity).
    destruct t as [c|c|s]; simpl render.
    + destruct (IH ts) as [ts' [Hwf E]]; [lia | exact Hts |].
      exists (Plain c :: ts'). split; [now constructor|].
      simpl in Ht. rewrite step_plain by exact Ht. simpl. now rewrite E.
    + destruct (HasPrefix (String c (render ts)) "*\*") eqn:E.
      * cbn [HasPrefix] in E. destruct (Ascii.eqb "*" c) eqn:Ec; [|discriminate].
        destruct (starts_quoted_star ts Hts E) as [ts2 ->].
        inversion Hts as [|? ? _ Hts2]; subst.
        destruct (IH ts2) as [ts' [Hwf E2]]; [simpl in Hlen; lia | exact Hts2 |].
        exists (Raw ".*" :: ts'). split; [now constructor|].
        rewrite step_quoted_match by (cbn [HasPrefix]; now rewrite Ec).
        simpl. now rewrite E2.
      * destruct (IH ts) as [ts' [Hwf E2]]; [lia | exact Hts |].
        exists (Quoted c :: ts'). split; [now constructor|].
        rewrite step_quoted_skip; [simpl; now rewrite E2 | exact E |].
        apply head_render; [exact Hts | now left].
    + destruct (IH ts) as [ts' [Hwf E]]; [lia | exact Hts |].
      exists (Raw s :: ts'). split; [now constructor|].
      rewrite step_raw by exact Ht. simpl. now rewrite E.
Qed.

(** The expression made from a glob is a sequence of tokens between the two
    anchors. *)
Lemma globToRegex_tokens (g : string) :
  exists ts, Forall wf ts
    /\ Ignore.globToRegex g = String "^" (render ts ++ "$").
Proof.
  unfold Ignore.globToRegex, ReplaceAll.
  rewrite QuoteMeta_render.
  destruct (replace_two_stars _ (of_string g) (le_n _) (of_string_wf g))
    as [t1 [W1 E1]].
  rewrite E1.
  destruct (replace_quoted "*" "[^/]*" t1) as [t2 [W2 E2]];
    [now left | right; now left | exact W1 |].
  rewrite E2.
  destruct (replace_quoted "?" "." t2) as [t3 [W3 E3]];
    [now right | right; now right | exact W2 |].
  rewrite E3.
  exists t3. split; [exact W3 | reflexivity].
Qed.

(** Such an expression always parses. *)
Lemma parse_globToRegex (g : string) :
  exists p, Regexp.parse (Ignore.globToRegex g) = Ok p.
Proof.
  destruct (globToRegex_tokens g) as [ts [W E]]. rewrite E.
  unfold Regexp.parse.
  change (Regexp.parse_from Regexp.PNormal [] (String "^" (render ts ++ "$")))
    with (Regexp.parse_from Regexp.PNormal [Regexp.BeginText] (render ts ++ "$")).
  rewrite parse_render by exact W. simpl. eauto.
Qed.

Lemma Compile_regex_of (g : string) :
  Regexp.Compile (Ignore.globToRegex (Filepath.ToSlash (Filepath.Clean g)))
  = Ok (regex_of g).
Proof.
  unfold Regexp.Compile, regex_of.
  destruct (parse_globToRegex (Filepath.ToSlash (Filepath.Clean g))) as [p E].
  now rewrite E.
Qed.

Lemma compile_loop_map (patterns : list string) (res : list Regexp.Regexp) :
  Ignore.compile_loop patterns res = Ok (res ++ map regex_of patterns).
Proof.
  revert res. induction patterns as [|g gs IH]; intros res; simpl.
  - now rewrite app_nil_r.
  - rewrite Compile_regex_of, IH, <- app_assoc. reflexivity.
Qed.

Lemma Compile_checked_regex_of (too_large : string -> bool) (g : string) :
  Regexp.Compile_checked too_large
    (Ignore.globToRegex (Filepath.ToSlash (Filepath.Clean g)))
  = if accepted too_large g then Ok (regex_of g) else Err (refusal g).
Proof.
  unfold Regexp.Compile_checked, accepted, refusal.
  change (Regexp.expr (regex_of g))
    with (Ignore.globToRegex (Filepath.ToSlash (Filepath.Clean g))).
  destruct (Utf8.ValidString _); cbn [negb andb]; [|reflexivity].
  destruct (too_large _); cbn [negb]; [reflexivity|].
  apply Compile_regex_of.
Qed.

Lemma compile_loop_checked_spec (too_large : string -> bool)
  (patterns : list string) (res : list Regexp.Regexp) :
  Ignore.compile_loop_checked too_large patterns res
  = match first_refused too_large patterns with
    | None => Ok (res ++ map regex_of patterns)
    | Some g => Err (refusal g)
    end.
Proof.
  revert res. induction patterns as [|g patterns IH]; intros res.
  - cbn. now rewrite app_nil_r.
  - cbn [Ignore.compile_loop_checked first_refused map].
    rewrite Compile_checked_regex_of.
    destruct (accepted too_large g); [|reflexivity].
    rewrite IH. destruct (first_refused too_large patterns); [reflexivity|].
    now rewrite <- app_assoc.
Qed.

Lemma Compile_checked_spec (too_large : string -> bool) (root : string)
  (patterns : list string) :
  Ignore.Compile_checked too_large root patterns
  = match first_refused too_large patterns with
    | None => Ok (map regex_of patterns)
    | Some g => Err (refusal g)
    end.
Proof. unfold Ignore.Compile_checked. apply compile_loop_checked_spec. Qed.

Lemma first_refused_None (too_large : string -> bool) (patterns : list string) :
  first_refused too_large patterns = None
  <-> forallb (accepted too_large) patterns = true.
Proof.
  induction patterns as [|g patterns IH]; cbn; [tauto|].
  destruct (accepted too_large g); cbn; [exact IH|]. split; discriminate.
Qed.

Lemma first_refused_Some (too_large : string -> bool) (patterns : list string)
  (g : string) :
  first_refused too_large patterns = Some g
  <-> exists before after,
        patterns = before ++ g :: after
        /\ forallb (accepted too_large) before = true
        /\ accepted too_large g = false.
Proof.
  induction patterns as [|p patterns IH]; cbn [first_refused].
  - split; [discriminate|]. intros (b & a & H & _). now destruct b.
  - destruct (accepted too_large p) eqn:A.
    + rewrite IH. split.
      * intros (b & a & -> & Hb & Hg). exists (p :: b), a. cbn. now rewrite A.
      * intros (b & a & H & Hb & Hg). destruct b as [|p' b].
        -- cbn in H. injection H as -> _. congruence.
        -- cbn in H. injection H as -> ->. cbn in Hb.
           apply andb_prop in Hb as [_ Hb]. now exists b, a.
    + split.
      * intros [= ->]. now exists [], patterns.
      * intros (b & a & H & Hb & Hg). destruct b as [|p' b].
        -- cbn in H. now injection H as ->.
        -- cbn in H. injection H as -> _. cbn in Hb. now rewrite A in Hb.
Qed.

Lemma Compile_map (root : string) (patterns : list string) :
  Ignore.Compile root patterns = Ok (map regex_of patterns).
Proof. unfold Ignore.Compile. now rewrite compile_loop_map. Qed.

(** Where the engine takes every expression, [Compile] returns what the
    parser alone gives. *)
Lemma Compile_checked_agrees (too_large : string -> bool) (root : string)
  (patterns : list string) (res : list Regexp.Regexp) :
  Ignore.Compile_checked too_large root patterns = Ok res ->
  Ignore.Compile root patterns = Ok res.
Proof.
  rewrite Compile_checked_spec. destruct (first_refused _ _); [discriminate|].
  intros [= <-]. apply Compile_map.
Qed.

End Replacing.

(** ** Matching *)

Lemma Match_existsb (rel : string) (regexes : list Regexp.Regexp) :
  Ignore.Match rel regexes
  = existsb (fun re => Regexp.MatchString re rel) regexes.
Proof.
  induction regexes as [|re rs IH]; simpl; [reflexivity|].
  rewrite IH. now destruct (Regexp.MatchString re rel).
Qed.



(** * The claims *)

(** C3 fails on the code: [globToRegex] makes [^.*/[^/]*\.tmp$] of the
    pattern [**/*.tmp]; the slash after the two stars stays a literal one, so
    that [c.tmp], a file of the root, is not matched.  The five other
    examples of the claim hold: [**/*.tmp] matches [a/b/c.tmp] and not
    [c.tmpx], and [cache/**] matches [cache/x] and [cache/x/y] and not
    [cachex/y]. *)
Theorem glob_examples :
  Ignore.globToRegex "**/*.tmp" = "^.*/[^/]*\.tmp$"
  /\ match_compiled ["**/*.tmp"] "c.tmp" = Some false
  /\ match_compiled ["**/*.tmp"] "a/b/c.tmp" = Some true
  /\ match_compiled ["**/*.tmp"] "c.tmpx" = Some false
  /\ match_compiled ["cache/**"] "cache/x" = Some true
  /\ match_compiled ["cache/**"] "cache/x/y" = Some true
  /\ match_compiled ["cache/**"] "cachex/y" = Some false
  /\ Ignore.Compile_checked (Watcher.TooLarge Sample.host) "" ["**/*.tmp"]
     = Ignore.Compile "" ["**/*.tmp"].
Proof. repeat split; vm_compute; reflexivity. Qed.



(** ** Levels *)








(** ** The arguments of the transfer *)

Lemma fold_exclusions (regexes : list Regexp.Regexp) (a : list string) :
  fold_left (fun a re => a ++ ["-x"; Regexp.expr re]) regexes a
  = a ++ flat_map (fun re => ["-x"; Regexp.expr re]) regexes.
Proof.
  revert a. induction regexes as [|re rs IH]; intros a; simpl.
  - now rewrite app_nil_r.
  - rewrite IH, <- app_assoc. reflexivity.
Qed.

Lemma newRuleRunner_spec (h : Watcher.Host) (r : Config.SyncRule) :
  Watcher.newRuleRunner h r
  = match first_refused (Watcher.TooLarge h) (Config.Ignore r) with
    | None => Ok (runner_of h r)
    | Some g => Err (refusal g)
    end.
Proof.
  unfold Watcher.newRuleRunner. rewrite Compile_checked_spec.
  now destruct (first_refused _ _).
Qed.

Lemma newRuleRunner_Ok (h : Watcher.Host) (r : Config.SyncRule)
  (rr : Watcher.ruleRunner) :
  Watcher.newRuleRunner h r = Ok rr -> rr = runner_of h r.
Proof.
  rewrite newRuleRunner_spec. destruct (first_refused _ _); [discriminate|].
  now intros [= <-].
Qed.

(** C4: whatever the reason, [syncOnce] calls [RSync] with the expanded
    source root, the rule's destination, the deletion flag set and the
    compiled ignore list, which reach the command line as [-d] and one [-x]
    per expression before source and destination; the call is the same
    whatever the rule's directions. *)
Theorem syncOnce_call (h : Watcher.Host) (r : Config.SyncRule)
  (rr : Watcher.ruleRunner) (reason : string) :
  Watcher.newRuleRunner h r = Ok rr ->
  let c := Watcher.syncOnce rr reason in
  Gsutil.src c = Util.Expand (Watcher.HomeDir h) (Config.Src r)
  /\ Gsutil.dst c = Config.Dst r
  /\ Gsutil.deleteRemote c = true
  /\ Ignore.Compile (Gsutil.src c) (Config.Ignore r) = Ok (Gsutil.ignoreRegex c)
  /\ Trace.tagged reason c = true
  /\ Gsutil.args c
     = ["-m"; "-o"; "GSUtil:parallel_process_count=1";
        "-o"; "GSUtil:sliced_object_download_threshold=0";
        "rsync"; "-r"; "-e"; "-d"]
       ++ flat_map (fun re => ["-x"; Regexp.expr re]) (Gsutil.ignoreRegex c)
       ++ [Gsutil.src c; Gsutil.dst c]
  /\ (forall (dirs : list Config.SyncDirection) (rr' : Watcher.ruleRunner),
        Watcher.newRuleRunner h (Trace.with_directions r dirs) = Ok rr' ->
        Watcher.syncOnce rr' reason = c).
Proof.
  intros E. apply newRuleRunner_Ok in E as ->. cbv zeta.
  unfold Watcher.syncOnce, Gsutil.args, runner_of.
  cbn [Gsutil.src Gsutil.dst Gsutil.deleteRemote Gsutil.ignoreRegex Gsutil.log
       Watcher.srcRoot Watcher.rule Watcher.ign Watcher.log].
  split; [reflexivity|]. split; [reflexivity|]. split; [reflexivity|].
  split; [apply Compile_map|].
  split.
  - unfold Trace.tagged, Logging.WithField. cbn [Gsutil.log].
    rewrite existsb_app. cbn [existsb fst snd].
    rewrite String.eqb_refl, String.eqb_refl. cbn. rewrite ?orb_true_r. reflexivity.
  - split.
    + rewrite fold_exclusions, <- !app_assoc. reflexivity.
    + intros dirs rr' E. apply newRuleRunner_Ok in E as ->. reflexivity.
Qed.

Lemma syncOnce_call_witness :
  Gsutil.deleteRemote
    (Watcher.syncOnce (Sample.runner Sample.book) "periodic pull") = true
  /\ Gsutil.src (Watcher.syncOnce (Sample.runner Sample.book) "periodic pull")
     = "/home/u/Projects/book".
Proof.
  destruct (syncOnce_call Sample.host Sample.book (Sample.runner Sample.book)
              "periodic pull") as (Hsrc & _ & Hdel & _).
  - vm_compute. reflexivity.
  - split; [exact Hdel | rewrite Hsrc; vm_compute; reflexivity].
Defined.

(** ** The run loop *)

Section RunLoop.
Import Watcher.
Variables (h : Host) (rr : ruleRunner).

Lemma containsDir_In (slice : list Config.SyncDirection) (v : Config.SyncDirection) :
  containsDir slice v = true <-> In v slice.
Proof.
  induction slice as [|d slice IH]; simpl.
  - split; [discriminate | contradiction].
  - destruct (String.eqb d v) eqn:E.
    + apply String.eqb_eq in E. split; [intros _; now left | reflexivity].
    + apply String.eqb_neq in E. rewrite IH. split; [intros H; now right|].
      intros [H|H]; [contradiction | exact H].
Qed.

(** [handleEvent] only logs. *)
Lemma handleEvent_logs (ev : Event) (fs : FS) (w : Watcher) :
  exists m, snd (handleEvent h rr ev fs w) = [Log Logging.DebugLevel (log rr) m].
Proof.
  unfold handleEvent.
  destruct (Ignore.Match _ _); [eexists; reflexivity|].
  destruct (negb (N.eqb (N.land (EvOp ev) Create) 0) && Stat_IsDir fs (Name ev));
    eexists; reflexivity.
Qed.

(** A property of traces that the actions of a class [keep] decide, such as
    the tickers or the timers created. *)
Section Filtered.
Variable keep : Z * action -> bool.
Hypothesis keep_Log : forall t lvl e m, keep (t, Log lvl e m) = false.


End Filtered.

Lemma ticker_fire (now : Z) (st : state) : ticker (fire rr now st) = ticker st.
Proof.
  unfold fire. destruct (timer st) as [tm|]; [|reflexivity].
  now destruct (pending tm && (when tm <=? now)%Z).
Qed.

Lemma ticker_iteration (st : state) (ti : Z * input) :
  ticker (iteration h rr st ti) = ticker st.
Proof.
  unfold iteration. rewrite <- (ticker_fire (fst ti) st).
  set (st1 := fire rr (fst ti) st).
  destruct (stopped st1); [reflexivity|].
  destruct (snd ti) as [ev fs|err| |]; try reflexivity.
  - destruct (handleEvent h rr ev fs (watcher st1)) as [w acts].
    unfold resetDebounce, emit. cbn [timer]. now destruct (timer st1).
  - destruct (ticker st1) eqn:E; [unfold emit; cbn [ticker]|]; now rewrite E.
Qed.





End RunLoop.


(** What [run] has done when it leaves its first part. *)
Lemma start_trace_spec (rr : Watcher.ruleRunner) (now : Z)
  (new_watcher_err : option string) (fs : Watcher.FS) :
  match Watcher.start rr now new_watcher_err fs with
  | Watcher.Entered st =>
      Watcher.trace st = Watcher.start_trace rr now new_watcher_err fs
  | Watcher.Panicked _ =>
      Watcher.start_trace rr now new_watcher_err fs
      = [(now, Watcher.RSync (Watcher.syncOnce rr "initial"));
         (now, Watcher.WatcherClose)]
  | Watcher.Returned _ =>
      Trace.syncs "initial" (Watcher.start_trace rr now new_watcher_err fs) = []
  end.
Proof.
  unfold Watcher.start, Watcher.start_trace.
  destruct new_watcher_err; [reflexivity|].
  destruct (Watcher.addRecursive fs [] (Watcher.srcRoot rr)) as [w [err|]];
    [reflexivity|].
  destruct (Watcher.containsDir _ _ || Watcher.containsDir _ _); [|reflexivity].
  destruct (_ <=? 0)%Z; reflexivity.
Qed.




(** ** Starting the runners *)

Section Starting.
Import Watcher.
Context {E : Type}.
Variable construct : Config.SyncRule -> result E ruleRunner.

(** What the loop of the hook returns: without an error, the runners of all
    enabled rules; with one, the runners of the enabled rules before the one
    whose construction failed. *)
Lemma start_rules_spec (rules : list Config.SyncRule) (started : list ruleRunner) :
  match start_rules construct rules started with
  | (out, None) =>
      exists new, out = started ++ new
        /\ map Ok new = map construct (filter Config.Enabled rules)
  | (out, Some err) =>
      exists pre r post new,
        rules = pre ++ r :: post
        /\ Config.Enabled r = true /\ construct r = Err err
        /\ out = started ++ new
        /\ map Ok new = map construct (filter Config.Enabled pre)
  end.
Proof.
  revert started. induction rules as [|r rules IH]; intros started; simpl.
  - exists []. now rewrite app_nil_r.
  - destruct (Config.Enabled r) eqn:En; simpl.
    + destruct (construct r) as [runner|err] eqn:C.
      * specialize (IH (started ++ [runner])).
        destruct (start_rules construct rules (started ++ [runner]))
          as [out [err|]].
        -- destruct IH as (pre & r' & post & new & -> & He & Hc & -> & Hm).
           exists (r :: pre), r', post, (runner :: new).
           repeat split; try assumption; try reflexivity.
           ++ now rewrite <- app_assoc.
           ++ simpl. rewrite En. simpl. now rewrite C, Hm.
        -- destruct IH as (new & -> & Hm).
           exists (runner :: new). split; [now rewrite <- app_assoc|].
           simpl. rewrite ?C, Hm. reflexivity.
      * exists [], r, rules, []. repeat split; try assumption; try reflexivity.
        now rewrite app_nil_r.
    + specialize (IH started).
      destruct (start_rules construct rules started) as [out [err|]].
      * destruct IH as (pre & r' & post & new & -> & He & Hc & -> & Hm).
        exists (r :: pre), r', post, new. repeat split; try assumption; try reflexivity.
        simpl. now rewrite En.
      * exact IH.
Qed.

Lemma start_rules_failure (pre post : list Config.SyncRule)
  (r : Config.SyncRule) (err : E) (started : list ruleRunner) :
  (forall r', In r' pre -> Config.Enabled r' = true ->
              exists runner, construct r' = Ok runner) ->
  Config.Enabled r = true -> construct r = Err err ->
  exists new,
    start_rules construct (pre ++ r :: post) started = (started ++ new, Some err)
    /\ map Ok new = map construct (filter Config.Enabled pre).
Proof.
  intros Hpre En C. revert started.
  induction pre as [|r' pre IH]; intros started; simpl.
  - rewrite En, C. simpl. exists []. now rewrite app_nil_r.
  - destruct (Config.Enabled r') eqn:En'; simpl.
    + destruct (Hpre r' (or_introl eq_refl) En') as [runner Hr]. rewrite Hr.
      destruct (IH (fun x Hx => Hpre x (or_intror Hx)) (started ++ [runner]))
        as (new & -> & Hm).
      exists (runner :: new). rewrite <- app_assoc. split; [reflexivity|].
      simpl. now rewrite Hm.
    + apply IH. intros x Hx. apply Hpre. now right.
Qed.

End Starting.

Lemma map_Ok_inv {E A B : Type} (f : A -> result E B) (l : list A)
  (new : list B) :
  map Ok new = map f l -> Forall2 (fun a b => f a = Ok b) l new.
Proof.
  revert new. induction l as [|a l IH]; intros [|b new] H; try discriminate.
  - constructor.
  - cbn in H. injection H as Hb Hm. constructor; [now symmetry | now apply IH].
Qed.

(** C6: the start hook constructs a runner for each enabled rule of the
    configuration, in order, and none for a disabled rule; each runner
    constructed is started, its goroutine executing [run], and no other
    goroutine is launched.  When the construction of a runner fails, which
    it does when the engine refuses one of the rule's ignore patterns, the
    hook returns that error, the runners of the enabled rules before it
    having been started. *)
Theorem OnStart_enabled_rules (h : Watcher.Host) (cfg : Config.Config)
  (env : Watcher.ruleRunner -> Watcher.world) :
  let res := Watcher.OnStart h cfg in
  let launched (rules : list Config.SyncRule) :=
    map Ok (fst res) = map (Watcher.newRuleRunner h) (filter Config.Enabled rules)
    /\ Forall2 (fun r out => exists rr, Watcher.newRuleRunner h r = Ok rr
                                       /\ out = Watcher.go h env rr)
               (filter Config.Enabled rules) (Watcher.goroutines h cfg env) in
  Forall (fun runner => exists r, In r (Config.Sync cfg)
                                  /\ Config.Enabled r = true
                                  /\ Watcher.newRuleRunner h r = Ok runner)
         (fst res)
  /\ ((forall r, In r (Config.Sync cfg) -> Config.Enabled r = true ->
                 forallb (accepted (Watcher.TooLarge h)) (Config.Ignore r) = true) ->
      snd res = None /\ launched (Config.Sync cfg))
  /\ (snd res = None -> launched (Config.Sync cfg))
  /\ (forall pre r post,
        Config.Sync cfg = pre ++ r :: post ->
        (forall r', In r' pre -> Config.Enabled r' = true ->
                    forallb (accepted (Watcher.TooLarge h)) (Config.Ignore r')
                    = true) ->
        Config.Enabled r = true ->
        forallb (accepted (Watcher.TooLarge h)) (Config.Ignore r) = false ->
        (exists err, Watcher.newRuleRunner h r = Err err /\ snd res = Some err)
        /\ launched pre).
Proof.
  cbv zeta. unfold Watcher.goroutines, Watcher.OnStart.
  set (construct := Watcher.newRuleRunner h).
  set (rules := Config.Sync cfg).
  assert (Hok : forall r,
             forallb (accepted (Watcher.TooLarge h)) (Config.Ignore r) = true ->
             exists runner, construct r = Ok runner).
  { intros r Hr. unfold construct. rewrite newRuleRunner_spec.
    apply first_refused_None in Hr. rewrite Hr. eexists; reflexivity. }
  assert (Hgo : forall l new,
             map Ok new = map construct l ->
             map Ok new = map construct l
             /\ Forall2 (fun r out => exists rr, construct r = Ok rr
                                                /\ out = Watcher.go h env rr)
                        l (map (Watcher.go h env) new)).
  { intros l new Hm. split; [exact Hm|]. apply map_Ok_inv in Hm.
    induction Hm as [|r rr l new Hr _ IH]; cbn [map]; constructor;
      [now exists rr | exact IH]. }
  assert (Hsub : forall l new,
             map Ok new = map construct (filter Config.Enabled l) ->
             Forall (fun runner => exists r, In r l /\ Config.Enabled r = true
                                             /\ construct r = Ok runner) new).
  { intros l new Hm. apply Forall_forall. intros runner Hin.
    apply (in_map (@Ok Regexp.ErrorCode _)) in Hin. rewrite Hm in Hin.
    apply in_map_iff in Hin. destruct Hin as [r [Hc Hf]].
    apply filter_In in Hf. destruct Hf as [Hr He]. now exists r. }
  pose proof (start_rules_spec construct rules []) as H.
  destruct (Watcher.start_rules construct rules []) as [out o] eqn:Es.
  cbn [fst snd].
  split; [|split; [|split]].
  - destruct o as [err|].
    + destruct H as (pre & r & post & new & -> & _ & _ & -> & Hm).
      eapply Forall_impl; [|apply (Hsub pre new Hm)].
      intros runner [x [Hx Hrest]]. exists x. split; [|exact Hrest].
      apply in_or_app. now left.
    + destruct H as (new & -> & Hm). now apply Hsub.
  - intros Hall. destruct o as [err|].
    + destruct H as (pre & r & post & new & Hp & En & C & _).
      destruct (Hok r) as [runner Hr]; [|congruence].
      apply Hall; [|exact En]. rewrite Hp. apply in_or_app. right. now left.
    + destruct H as (new & -> & Hm). split; [reflexivity|]. now apply Hgo.
  - intros ->. destruct H as (new & -> & Hm). now apply Hgo.
  - intros pre r post Hp Hpre En Hr.
    assert (C : construct r = Err (match first_refused (Watcher.TooLarge h)
                                           (Config.Ignore r) with
                                   | Some g => refusal g
                                   | None => Regexp.ErrLarge
                                   end)).
    { unfold construct. rewrite newRuleRunner_spec.
      destruct (first_refused _ _) eqn:F; [reflexivity|].
      apply first_refused_None in F. congruence. }
    assert (Hpre' : forall r', In r' pre -> Config.Enabled r' = true ->
                               exists runner, construct r' = Ok runner)
      by (intros r' Hin Hen; apply Hok; now apply Hpre).
    destruct (start_rules_failure construct pre post r _ [] Hpre' En C)
      as (new & Hs & Hm).
    fold rules in Hp. rewrite <- Hp, Es in Hs. cbn [app] in Hs.
    injection Hs as -> ->.
    split; [eexists; split; [exact C | reflexivity]|]. now apply Hgo.
Qed.

Lemma OnStart_enabled_rules_witness :
  (snd (Watcher.OnStart Sample.host
          {| Config.Sync := [Sample.book; Sample.disabled; Sample.mirror] |})
   = None
   /\ map Ok (fst (Watcher.OnStart Sample.host
                     {| Config.Sync := [Sample.book; Sample.disabled;
                                        Sample.mirror] |}))
      = [Watcher.newRuleRunner Sample.host Sample.book;
         Watcher.newRuleRunner Sample.host Sample.mirror])
  /\ (snd (Watcher.OnStart Sample.host
             {| Config.Sync := [Sample.book; Sample.disabled; Sample2.garbled;
                                Sample.mirror] |})
      = Some Regexp.ErrInvalidUTF8
      /\ map Ok (fst (Watcher.OnStart Sample.host
                        {| Config.Sync := [Sample.book; Sample.disabled;
                                           Sample2.garbled; Sample.mirror] |}))
         = [Watcher.newRuleRunner Sample.host Sample.book]).
Proof.
  split.
  - destruct (OnStart_enabled_rules Sample.host
                {| Config.Sync := [Sample.book; Sample.disabled; Sample.mirror] |}
                Sample2.quiet) as (_ & H & _).
    destruct H as (Hn & Hm & _).
    + intros r [<-|[<-|[<-|[]]]] En; (reflexivity || discriminate En).
    + split; [exact Hn | exact Hm].
  - destruct (OnStart_enabled_rules Sample.host
                {| Config.Sync := [Sample.book; Sample.disabled; Sample2.garbled;
                                   Sample.mirror] |}
                Sample2.quiet) as (_ & _ & _ & H).
    destruct (H [Sample.book; Sample.disabled] Sample2.garbled [Sample.mirror])
      as ((err & He & Hs) & Hm & _).
    + reflexivity.
    + intros r' [<-|[<-|[]]] En; (reflexivity || discriminate En).
    + reflexivity.
    + reflexivity.
    + split; [|exact Hm].
      rewrite Hs. f_equal.
      assert (E : Watcher.newRuleRunner Sample.host Sample2.garbled
                  = Err Regexp.ErrInvalidUTF8) by (vm_compute; reflexivity).
      congruence.
Defined.


(** ** Debouncing *)



Section Debounce.
Import Watcher.
Variables (h : Host) (rr : ruleRunner).
Let W := Config.DebounceWindow (rule rr).

Lemma syncs_app (reason : string) (a b : list (Z * action)) :
  Trace.syncs reason (a ++ b) = Trace.syncs reason a ++ Trace.syncs reason b.
Proof. unfold Trace.syncs. now rewrite filter_app, map_app. Qed.

Lemma timers_app (a b : list (Z * action)) :
  Trace.timers_created (a ++ b)
  = Trace.timers_created a + Trace.timers_created b.
Proof. unfold Trace.timers_created. now rewrite filter_app, length_app. Qed.

Lemma tagged_syncOnce (reason : string) :
  Trace.tagged reason (syncOnce rr reason) = true.
Proof.
  unfold Trace.tagged, syncOnce, Logging.WithField. cbn [Gsutil.log].
  rewrite existsb_app. cbn [existsb fst snd].
  rewrite !String.eqb_refl. cbn. now rewrite ?orb_true_r.
Qed.

Lemma stopped_fire (now : Z) (st : state) :
  stopped (fire rr now st) = stopped st.
Proof.
  unfold fire. destruct (timer st) as [tm|]; [|reflexivity].
  now destruct (pending tm && (when tm <=? now)%Z).
Qed.

Lemma watcher_fire (now : Z) (st : state) :
  watcher (fire rr now st) = watcher st.
Proof.
  unfold fire. destruct (timer st) as [tm|]; [|reflexivity].
  now destruct (pending tm && (when tm <=? now)%Z).
Qed.

(** Nothing fires while the state is quiet. *)
Lemma fire_quiet (now : Z) (st : state) :
  Trace.quiet_until st now -> fire rr now st = st.
Proof.
  unfold Trace.quiet_until, fire. destruct (timer st) as [tm|]; [|reflexivity].
  intros H. destruct (pending tm); [|reflexivity].
  specialize (H eq_refl). apply Z.leb_gt in H. now rewrite H.
Qed.

(** A pending timer fires once its time has come. *)
Lemma fire_due (T t : Z) (st : state) :
  timer st = Some {| when := t; pending := true |} -> (t <= T)%Z ->
  Trace.syncs "debounce" (trace (fire rr T st))
  = Trace.syncs "debounce" (trace st) ++ [t]
  /\ timer (fire rr T st) = Some {| when := t; pending := false |}.
Proof.
  intros Ht Hle. unfold fire. rewrite Ht. cbn [pending when andb].
  apply Z.leb_le in Hle. rewrite Hle. cbn [trace timer].
  split; [|reflexivity].
  rewrite syncs_app. f_equal.
  unfold Trace.syncs, Trace.is_sync. cbn [filter snd].
  now rewrite tagged_syncOnce.
Qed.

(** What an iteration on a filesystem event does to a running state. *)
Lemma iteration_event (st : state) (now : Z) (ev : Event) (fs : FS) :
  stopped st = false ->
  let st0 := fire rr now st in
  let st' := iteration h rr st (now, FsEvent ev fs) in
  stopped st' = false
  /\ watcher st' = fst (handleEvent h rr ev fs (watcher st0))
  /\ timer st' = Some {| when := deadline now W; pending := true |}
  /\ Trace.syncs "debounce" (trace st') = Trace.syncs "debounce" (trace st0)
  /\ Trace.timers_created (trace st')
     = Trace.timers_created (trace st0)
       + match timer st0 with None => 1 | Some _ => 0 end
  /\ (timer st0 <> None ->
      exists m, trace st'
                = trace st0 ++ [(now, Log Logging.DebugLevel (log rr) m);
                                (now, TimerReset W)]).
Proof.
  intros Hs. cbv zeta. unfold iteration. cbn [fst snd].
  rewrite stopped_fire, Hs.
  set (st0 := fire rr now st).
  destruct (handleEvent_logs h rr ev fs (watcher st0)) as [m Hm].
  destruct (handleEvent h rr ev fs (watcher st0)) as [w acts].
  cbn [fst snd] in *. subst acts.
  unfold resetDebounce, emit. cbn [timer trace map].
  destruct (timer st0) as [tm|]; cbn [stopped watcher timer trace];
    (split; [reflexivity|]); (split; [reflexivity|]); (split; [reflexivity|]);
    rewrite <- !app_assoc, !syncs_app, !timers_app; cbn; rewrite ?app_nil_r.
  - split; [reflexivity|]. split; [lia|]. intros _. now exists m.
  - split; [reflexivity|]. split; [lia|]. intros H. contradiction.
Qed.

(** An ignored event is handled in the same way, and registers no watch. *)
Lemma handleEvent_ignored (ev : Event) (fs : FS) (w : Watcher) :
  Trace.ignored h rr ev = true ->
  handleEvent h rr ev fs w
  = (w, [Log Logging.DebugLevel (log rr)
             (MsgIgnored (EvOp ev) (Trace.rel_of h rr ev))]).
Proof.
  unfold Trace.ignored, Trace.rel_of, handleEvent. now intros ->.
Qed.






End Debounce.



(** C1 fails on the code: an event whose relative path matches the ignore
    list is logged and registers no watch, but the loop still arms the
    debounce timer for it (or resets it), and a synchronization tagged
    debounce follows a window later. *)
Theorem ignored_event_arms_debounce (h : Watcher.Host)
  (rr : Watcher.ruleRunner) (st : Watcher.state) (now : Z)
  (ev : Watcher.Event) (fs : Watcher.FS) :
  let W := Config.DebounceWindow (Watcher.rule rr) in
  let st' := Watcher.iteration h rr st (now, Watcher.FsEvent ev fs) in
  Watcher.stopped st = false ->
  Trace.ignored h rr ev = true ->
  Watcher.watcher st' = Watcher.watcher st
  /\ Watcher.timer st'
     = Some {| Watcher.when := Watcher.deadline now W; Watcher.pending := true |}
  /\ (forall T, (Watcher.deadline now W <= T)%Z ->
        In (Watcher.deadline now W)
           (Trace.syncs "debounce" (Watcher.trace (Watcher.fire rr T st')))).
Proof.
  cbv zeta. intros Hs Hi.
  destruct (iteration_event h rr st now ev fs Hs) as (_ & Hw & Ht & _).
  rewrite (handleEvent_ignored h rr ev fs _ Hi) in Hw. cbn [fst] in Hw.
  rewrite watcher_fire in Hw.
  split; [exact Hw|]. split; [exact Ht|].
  intros T HT. destruct (fire_due rr T _ _ Ht HT) as [E _].
  rewrite E. apply in_or_app. right. now left.
Qed.

Lemma ignored_event_arms_debounce_witness :
  let rr := Sample.runner Sample.mirror in
  let st := Sample.entered Sample.mirror in
  let st' := Watcher.iteration Sample.host rr st
               (10%Z, Watcher.FsEvent (Sample.write "/data/a.log") Sample.fs) in
  Watcher.timer st = None
  /\ Watcher.timer st'
     = Some {| Watcher.when := 3000000010; Watcher.pending := true |}
  /\ In 3000000010%Z
        (Trace.syncs "debounce" (Watcher.trace (Watcher.fire rr 3000000010 st'))).
Proof.
  cbv zeta.
  destruct (ignored_event_arms_debounce Sample.host
              (Sample.runner Sample.mirror) (Sample.entered Sample.mirror) 10
              (Sample.write "/data/a.log") Sample.fs) as (_ & Ht & Hf).
  - reflexivity.
  - vm_compute. reflexivity.
  - split; [reflexivity|]. split; [exact Ht|].
    apply (Hf 3000000010%Z). discriminate.
Defined.

(** C7 fails on the code: a rule whose [debounce_window] key is absent gets
    the window 0, not 3 seconds; for the rule of the README's example the
    timer set by an event at time 100 is due at time 100 and the
    synchronization is made then. *)
Theorem unset_debounce_window_is_zero :
  (forall src dst dirs ign en poll,
      Config.DebounceWindow
        (Config.unmarshalRule
           {| Config.y_src := src; Config.y_dst := dst;
              Config.y_directions := dirs; Config.y_ignore := ign;
              Config.y_enabled := en; Config.y_debounce_window := None;
              Config.y_remote_poll_window := poll |}) = 0%Z)
  /\ (let r := Config.unmarshalRule Sample.readme_rule in
      let rr := Sample.runner r in
      let st := Watcher.iteration Sample.host rr (Sample.entered r)
                  (100%Z, Watcher.FsEvent
                            (Sample.write "/home/u/Projects/book/ch1.md")
                            Sample.fs) in
      Config.DebounceWindow r <> (3 * Config.Second)%Z
      /\ Trace.ignored Sample.host rr
           (Sample.write "/home/u/Projects/book/ch1.md") = false
      /\ Watcher.timer st
         = Some {| Watcher.when := 100; Watcher.pending := true |}
      /\ Trace.syncs "debounce" (Watcher.trace (Watcher.fire rr 100 st))
         = [100%Z]).
Proof.
  split; [reflexivity|].
  cbv zeta. split; [discriminate|].
  split; [vm_compute; reflexivity|].
  split; vm_compute; reflexivity.
Qed.

(** * Further properties *)

(** ** The expression of a glob in one pass *)

Lemma HasPrefix_empty (s : string) : GoStrings.HasPrefix s "" = true.
Proof. now destruct s. Qed.

Lemma append_nil_r' (a : string) : (a ++ "" = a)%string.
Proof. induction a as [|x a IH]; simpl; [reflexivity | now rewrite IH]. Qed.

Section OnePass.
Import Tokens Glob GoStrings.

Lemma is_quoted_of_char (x c : ascii) :
  Regexp.special x = true -> is_quoted x (of_char c) = Ascii.eqb x c.
Proof.
  intros Hx. unfold of_char. destruct (Regexp.special c) eqn:Ec; [reflexivity|].
  cbn [is_quoted]. symmetry. rewrite Ascii.eqb_sym. now apply not_special.
Qed.

Lemma is_quoted_prefix (x : ascii) (p : string) (t : tok) (ts : list tok) :
  Forall wf (t :: ts) ->
  HasPrefix (render (t :: ts)) (String "\" (String x p))
  = is_quoted x t && HasPrefix (render ts) p.
Proof.
  intros H. inversion H as [|? ? Ht _]; subst.
  destruct t as [c|c|s]; cbn [render render_tok append HasPrefix is_quoted wf] in *.
  - assert (E : Ascii.eqb "\" c = false)
      by (rewrite Ascii.eqb_sym; now apply not_special).
    now rewrite E.
  - destruct (Ascii.eqb x c); reflexivity.
  - destruct Ht as [Hs|[Hs|Hs]]; subst s; reflexivity.
Qed.

Lemma pair_stars_cons (t t' : tok) (ts : list tok) :
  pair_stars (t :: t' :: ts)
  = if is_quoted "*" t && is_quoted "*" t'
    then Raw ".*" :: pair_stars ts
    else t :: pair_stars (t' :: ts).
Proof. reflexivity. Qed.

Lemma replace_pairs (n : nat) (ts : list tok) :
  List.length ts <= n -> Forall wf ts ->
  replace_from "\*\*" ".*" 0 (render ts) = render (pair_stars ts).
Proof.
  revert ts. induction n as [|n IH]; intros ts Hlen Hts.
  - destruct ts; [reflexivity | simpl in Hlen; lia].
  - destruct Hts as [|t ts Ht Hts]; [reflexivity|].
    simpl in Hlen.
    assert (Hskip : is_quoted "*" t && HasPrefix (render ts) "\*" = false ->
                    replace_from "\*\*" ".*" 0 (render (t :: ts))
                    = (render_tok t ++ replace_from "\*\*" ".*" 0 (render ts))%string).
    { intros E. destruct t as [c|c|s]; cbn [render render_tok].
      - cbn [append]. now rewrite step_plain.
      - cbn [append]. apply step_quoted_skip.
        + cbn [is_quoted] in E. cbn [HasPrefix].
          destruct (Ascii.eqb "*" c); [exact E | reflexivity].
        + apply head_render; [exact Hts | now left].
      - now rewrite step_raw. }
    destruct ts as [|t' ts'].
    { cbn [pair_stars]. rewrite Hskip.
      - cbn [render]. now rewrite !append_nil_r'.
      - cbn [render HasPrefix]. apply andb_false_r. }
    cbn [pair_stars].
    rewrite (is_quoted_prefix "*" "" t' ts' Hts) in Hskip.
    replace (HasPrefix (render ts') "") with true in Hskip
      by (now destruct (render ts')).
    rewrite andb_true_r in Hskip.
    destruct (is_quoted "*" t && is_quoted "*" t') eqn:E.
    + apply andb_true_iff in E. destruct E as [E1 E2].
      destruct t as [c|c|s]; try discriminate E1.
      destruct t' as [c'|c'|s']; try discriminate E2.
      cbn [is_quoted] in E1, E2.
      apply Ascii.eqb_eq in E1, E2. subst c c'.
      inversion Hts as [|? ? _ Hts']; subst.
      cbn [render render_tok append].
      rewrite step_quoted_match by (simpl; now destruct (render ts')).
      cbn [String.length replace_from].
      rewrite IH; [reflexivity | simpl in Hlen; lia | exact Hts'].
    + rewrite Hskip by reflexivity.
      rewrite IH; [reflexivity | lia | exact Hts].
Qed.

Lemma replace_unquote (x : ascii) (new : string) (ts : list tok) :
  x = "*"%char \/ x = "?"%char -> wf (Raw new) -> Forall wf ts ->
  replace_from (String "\" (String x "")) new 0 (render ts)
  = render (map (unquote x new) ts).
Proof.
  intros Hx Hnew. induction 1 as [|t ts Ht Hts IH]; [reflexivity|].
  cbn [map render]. rewrite <- IH. unfold unquote.
  destruct t as [c|c|s]; cbn [is_quoted render_tok append].
  - now rewrite step_plain.
  - destruct (Ascii.eqb x c) eqn:E; cbn [render_tok append].
    + rewrite step_quoted_match
        by (cbn [HasPrefix]; rewrite E; apply HasPrefix_empty).
      reflexivity.
    + apply step_quoted_skip.
      * cbn [HasPrefix]. now rewrite E.
      * now apply head_render.
  - now rewrite step_raw.
Qed.

Lemma pair_stars_wf (n : nat) (ts : list tok) :
  List.length ts <= n -> Forall wf ts -> Forall wf (pair_stars ts).
Proof.
  revert ts. induction n as [|n IH]; intros ts Hlen Hts.
  - destruct ts; [constructor | simpl in Hlen; lia].
  - destruct Hts as [|t ts Ht Hts]; [constructor|].
    simpl in Hlen. destruct ts as [|t' ts'].
    + now constructor.
    + rewrite pair_stars_cons. destruct (is_quoted "*" t && is_quoted "*" t').
      * inversion Hts; subst. constructor; [left; reflexivity|].
        apply IH; [simpl in Hlen; lia | assumption].
      * constructor; [exact Ht|]. apply IH; [lia | exact Hts].
Qed.

Lemma unquote_wf (x : ascii) (new : string) (ts : list tok) :
  wf (Raw new) -> Forall wf ts -> Forall wf (map (unquote x new) ts).
Proof.
  intros Hnew. induction 1 as [|t ts Ht _ IH]; cbn [map]; constructor; [|exact IH].
  unfold unquote. now destruct (is_quoted x t).
Qed.

Lemma final_wf (g : string) : Forall wf (final g).
Proof.
  unfold final. apply unquote_wf; [right; now right|].
  apply unquote_wf; [right; now left|].
  apply (pair_stars_wf _ _ (le_n _)), of_string_wf.
Qed.

Lemma globToRegex_final (g : string) :
  Ignore.globToRegex g = String "^" (render (final g) ++ "$").
Proof.
  unfold Ignore.globToRegex, ReplaceAll, final.
  rewrite QuoteMeta_render.
  rewrite (replace_pairs _ _ (le_n _) (of_string_wf g)).
  rewrite replace_unquote;
    [| now left | right; now left
     | apply (pair_stars_wf _ _ (le_n _)), of_string_wf].
  rewrite replace_unquote;
    [| now right | right; now right |].
  - reflexivity.
  - apply unquote_wf; [right; now left|].
    apply (pair_stars_wf _ _ (le_n _)), of_string_wf.
Qed.

End OnePass.

Section OnePassTranslate.
Import Tokens Glob.

Let tokc (c : ascii) : tok :=
  unquote "?" "." (unquote "*" "[^/]*" (of_char c)).

Lemma final_cons (c : ascii) (g : string) :
  final (String c g)
  = match g with
    | String c' g' =>
        if Ascii.eqb "*" c && Ascii.eqb "*" c'
        then Raw ".*" :: final g'
        else tokc c :: final g
    | EmptyString => [tokc c]
    end.
Proof.
  unfold final. cbn [of_string]. destruct g as [|c' g']; [reflexivity|].
  cbn [of_string]. rewrite pair_stars_cons.
  rewrite !is_quoted_of_char by reflexivity.
  destruct (Ascii.eqb "*" c && Ascii.eqb "*" c'); reflexivity.
Qed.

Lemma tokc_other (c : ascii) :
  Ascii.eqb c "*" = false -> Ascii.eqb c "?" = false -> tokc c = of_char c.
Proof.
  intros H1 H2. unfold tokc, unquote.
  rewrite (is_quoted_of_char "*" c eq_refl), Ascii.eqb_sym, H1.
  rewrite (is_quoted_of_char "?" c eq_refl), Ascii.eqb_sym, H2.
  reflexivity.
Qed.

(** One character that is not part of two stars in a row. *)
Lemma one_char (c : ascii) (g : string) :
  (forall c' g', g = String c' g' -> Ascii.eqb "*" c && Ascii.eqb "*" c' = false) ->
  translate (String c g) = (render_tok (tokc c) ++ translate g)%string
  /\ nodes (String c g) = node_of (tokc c) :: nodes g.
Proof.
  intros Hg. cbn [translate nodes].
  destruct (Ascii.eqb c "*") eqn:E1.
  - apply Ascii.eqb_eq in E1. subst c.
    destruct g as [|c' g']; [split; reflexivity|].
    specialize (Hg c' g' eq_refl).
    change (Ascii.eqb "*" "*") with true in Hg. cbn [andb] in Hg.
    rewrite Ascii.eqb_sym, Hg. split; reflexivity.
  - destruct (Ascii.eqb c "?") eqn:E2.
    + apply Ascii.eqb_eq in E2. subst c. split; reflexivity.
    + rewrite (tokc_other c E1 E2). unfold of_char.
      destruct (Regexp.special c); split; reflexivity.
Qed.

Lemma final_translate (n : nat) (g : string) :
  String.length g <= n ->
  render (final g) = translate g /\ map node_of (final g) = nodes g.
Proof.
  revert g. induction n as [|n IH]; intros g Hlen.
  - destruct g; [split; reflexivity | simpl in Hlen; lia].
  - destruct g as [|c g]; [split; reflexivity|].
    simpl in Hlen. rewrite final_cons.
    destruct g as [|c' g'].
    + destruct (one_char c "") as [H1 H2]; [intros ? ? [=]|].
      rewrite H1, H2. cbn [render map translate nodes]. split; reflexivity.
    + destruct (Ascii.eqb "*" c && Ascii.eqb "*" c') eqn:E.
      * apply andb_true_iff in E. destruct E as [E1 E2].
        apply Ascii.eqb_eq in E1, E2. subst c c'.
        destruct (IH g') as [H1 H2]; [simpl in Hlen; lia|].
        cbn [render render_tok map node_of translate nodes].
        rewrite H1, H2. split; reflexivity.
      * destruct (one_char c (String c' g')) as [H1 H2].
        { intros x y [= <- <-]. exact E. }
        destruct (IH (String c' g')) as [H3 H4]; [lia|].
        rewrite H1, H2. cbn [render map]. rewrite H3, H4. split; reflexivity.
Qed.

(** The expression between its anchors parses into the nodes of its
    tokens. *)
Lemma parse_anchored (ts : list tok) :
  Forall wf ts ->
  Regexp.parse (String "^" (render ts ++ "$"))
  = Ok (Regexp.BeginText :: map node_of ts ++ [Regexp.EndText]).
Proof.
  intros W. unfold Regexp.parse.
  change (Regexp.parse_from Regexp.PNormal [] (String "^" (render ts ++ "$")))
    with (Regexp.parse_from Regexp.PNormal [Regexp.BeginText] (render ts ++ "$")).
  rewrite parse_render by exact W. cbn.
  rewrite rev_app_distr, rev_involutive. reflexivity.
Qed.

End OnePassTranslate.

(** ** Compiling under the checks of the engine *)

Section Encoding.
Import Utf8.

Lemma step_inside (e e' : expect) (c : ascii) :
  inside e -> step e c = Some e' -> inside e'.
Proof.
  intros _. unfold step. destruct e as [|more lo hi].
  - unfold first_byte.
    repeat match goal with
           | |- context [if ?b then _ else _] => destruct b
           end; intros [= <-]; cbn; lia.
  - destruct (between lo hi _); [|discriminate].
    destruct more; intros [= <-]; cbn; lia.
Qed.

Lemma valid_from_ascii (e : expect) (c : ascii) (s : string) :
  inside e -> GoStrings.is_ascii c = true ->
  valid_from e (String c s)
  = match e with First => valid_from First s | Within _ _ _ => false end.
Proof.
  unfold GoStrings.is_ascii, valid_from. intros He Hc. cbn [scan].
  destruct e as [|more lo hi]; cbn [step].
  - unfold first_byte. rewrite Hc. reflexivity.
  - cbn in He. apply Nat.ltb_lt in Hc.
    assert (Hb : between lo hi (nat_of_ascii c) = false).
    { unfold between. apply andb_false_iff. left. apply Nat.leb_gt. lia. }
    now rewrite Hb.
Qed.

Lemma valid_from_other (e : expect) (c : ascii) (s s' : string) :
  (forall e', inside e' -> valid_from e' s = valid_from e' s') ->
  inside e ->
  valid_from e (String c s) = valid_from e (String c s').
Proof.
  intros H He. unfold valid_from. cbn [scan].
  destruct (step e c) as [e'|] eqn:E; [|reflexivity].
  apply (H e'), (step_inside e e' c He E).
Qed.

Lemma special_is_ascii (c : ascii) :
  Regexp.special c = true -> GoStrings.is_ascii c = true.
Proof.
  destruct c as [[] [] [] [] [] [] [] []]; intros H;
    (reflexivity || discriminate H).
Qed.

(** The expression of a glob is valid UTF-8 exactly when the glob is: the
    translation only puts ASCII characters where there were some. *)
Lemma translate_valid (n : nat) (g : string) :
  String.length g <= n ->
  forall e, inside e ->
    valid_from e (Glob.translate g ++ "$") = valid_from e g.
Proof.
  revert g. induction n as [|n IH]; intros g Hlen e He.
  - destruct g; [|simpl in Hlen; lia].
    cbn [Glob.translate append]. rewrite valid_from_ascii by easy.
    now destruct e.
  - destruct g as [|c g].
    { cbn [Glob.translate append]. rewrite valid_from_ascii by easy.
      now destruct e. }
    simpl in Hlen. cbn [Glob.translate].
    destruct (Ascii.eqb c "*") eqn:Es.
    { apply Ascii.eqb_eq in Es. subst c.
      destruct g as [|c' g'].
      - cbn [append]. rewrite !valid_from_ascii by easy.
        destruct e; [|reflexivity].
        apply (IH ""); [cbn; lia | exact I].
      - destruct (Ascii.eqb c' "*") eqn:Es'.
        + apply Ascii.eqb_eq in Es'. subst c'.
          cbn [append]. rewrite !valid_from_ascii by easy.
          destruct e; [|reflexivity].
          apply IH; [simpl in Hlen; lia | exact I].
        + cbn [append]. rewrite !valid_from_ascii by easy.
          destruct e; [|reflexivity].
          apply IH; [lia | exact I]. }
    destruct (Ascii.eqb c "?") eqn:Eq.
    { apply Ascii.eqb_eq in Eq. subst c. cbn [append].
      rewrite !valid_from_ascii by easy.
      destruct e; [|reflexivity]. apply IH; [lia | exact I]. }
    destruct (Regexp.special c) eqn:Ec.
    { pose proof (special_is_ascii c Ec) as Ha. cbn [append].
      rewrite (valid_from_ascii e "\") by easy.
      rewrite (valid_from_ascii e c g) by easy.
      destruct e; [|reflexivity].
      rewrite valid_from_ascii by easy.
      apply IH; [lia | exact I]. }
    cbn [append]. apply valid_from_other; [|exact He].
    intros e' He'. apply IH; [lia | exact He'].
Qed.

End Encoding.

Lemma ValidString_globToRegex (g : string) :
  Utf8.ValidString (Ignore.globToRegex g) = Utf8.ValidString g.
Proof.
  destruct (final_translate _ g (le_n _)) as [H1 _].
  rewrite globToRegex_final, H1. unfold Utf8.ValidString.
  rewrite valid_from_ascii by easy.
  apply (translate_valid _ g (le_n _)). exact I.
Qed.

(** C10 as stated fails: a pattern that is not valid UTF-8 makes [Compile]
    return the error of [regexp.Compile]. *)
Lemma Compile_fails_on_invalid_utf8 :
  Ignore.Compile_checked (Watcher.TooLarge Sample.host) "/srv"
    ["*.log"; Sample2.garbled_pattern; "c"]
  = Err Regexp.ErrInvalidUTF8.
Proof. vm_compute. reflexivity. Qed.

(** C10, as amended: [Compile] never fails on the syntax of a pattern.  When
    the engine takes every pattern, that is when each cleaned pattern is
    valid UTF-8 and its expression is within the size limit, [Compile]
    returns one compiled expression per pattern, in order, each one the
    parse of the expression [globToRegex] makes from the cleaned pattern.
    Otherwise it returns the error of the first pattern the engine refuses,
    which is that of the encoding or that of the size. *)
Theorem Compile_never_fails (too_large : string -> bool) (root : string)
  (patterns : list string) :
  (forallb (accepted too_large) patterns = true ->
   exists res : list Regexp.Regexp,
     Ignore.Compile_checked too_large root patterns = Ok res
     /\ List.length res = List.length patterns
     /\ map Regexp.expr res
        = map (fun g => Ignore.globToRegex (Filepath.ToSlash (Filepath.Clean g)))
              patterns
     /\ Forall (fun re => Regexp.parse (Regexp.expr re) = Ok (Regexp.prog re))
               res)
  /\ (forall before g after,
        patterns = before ++ g :: after ->
        forallb (accepted too_large) before = true ->
        accepted too_large g = false ->
        let e := Ignore.globToRegex (Filepath.ToSlash (Filepath.Clean g)) in
        Ignore.Compile_checked too_large root patterns
        = Err (if Utf8.ValidString e then Regexp.ErrLarge
               else Regexp.ErrInvalidUTF8))
  /\ (forall err,
        Ignore.Compile_checked too_large root patterns = Err err ->
        (err = Regexp.ErrInvalidUTF8 \/ err = Regexp.ErrLarge)
        /\ forallb (accepted too_large) patterns = false)
  /\ (forall g,
        accepted too_large g
        = Utf8.ValidString (Filepath.Clean g)
          && negb (too_large (Ignore.globToRegex
                                (Filepath.ToSlash (Filepath.Clean g))))).
Proof.
  rewrite Compile_checked_spec. split; [|split; [|split]];
    [| | |intros g; unfold accepted, regex_of; cbn [Regexp.expr];
          now rewrite ValidString_globToRegex].
  - intros H. apply first_refused_None in H. rewrite H.
    exists (map regex_of patterns).
    split; [reflexivity|]. split; [apply length_map|].
    split; [now rewrite map_map|].
    apply Forall_forall. intros re Hin.
    apply in_map_iff in Hin. destruct Hin as [g [<- _]].
    unfold regex_of; simpl.
    destruct (parse_globToRegex (Filepath.ToSlash (Filepath.Clean g))) as [p E].
    now rewrite E.
  - intros before g after Hp Hb Hg. cbv zeta.
    assert (H : first_refused too_large patterns = Some g)
      by (apply first_refused_Some; now exists before, after).
    rewrite H. reflexivity.
  - intros err. destruct (first_refused too_large patterns) as [g|] eqn:H;
      [|discriminate].
    intros [= <-]. split.
    + unfold refusal. destruct (Utf8.ValidString _); [now right | now left].
    + destruct (forallb (accepted too_large) patterns) eqn:F; [|reflexivity].
      apply first_refused_None in F. congruence.
Qed.

Lemma Compile_never_fails_witness :
  (exists res,
      Ignore.Compile_checked Sample2.tiny "/data" ["*.c"; "a?"; "[x"] = Ok res
      /\ map Regexp.expr res = ["^[^/]*\.c$"; "^a.$"; "^\[x$"])
  /\ Ignore.Compile_checked Sample2.tiny "/data" ["*.c"; "**/*.tmp"; "a?"]
     = Err Regexp.ErrLarge
  /\ Ignore.Compile_checked Sample2.tiny "/data"
       ["*.c"; Sample2.garbled_pattern]
     = Err Regexp.ErrInvalidUTF8.
Proof.
  split; [|split].
  - destruct (Compile_never_fails Sample2.tiny "/data" ["*.c"; "a?"; "[x"])
      as [H _].
    destruct (H eq_refl) as (res & E & _ & Hx & _).
    exists res. split; [exact E | exact Hx].
  - destruct (Compile_never_fails Sample2.tiny "/data"
                ["*.c"; "**/*.tmp"; "a?"]) as (_ & H & _).
    apply (H ["*.c"] "**/*.tmp" ["a?"]); reflexivity.
  - destruct (Compile_never_fails Sample2.tiny "/data"
                ["*.c"; Sample2.garbled_pattern]) as (_ & H & _).
    apply (H ["*.c"] Sample2.garbled_pattern []); reflexivity.
Defined.

Lemma prog_regex_of (g : string) :
  Regexp.prog (regex_of g)
  = Regexp.BeginText :: Glob.nodes (Filepath.Clean g) ++ [Regexp.EndText].
Proof.
  unfold regex_of, Filepath.ToSlash. cbn [Regexp.prog].
  destruct (final_translate _ (Filepath.Clean g) (le_n _)) as [_ H2].
  rewrite globToRegex_final, <- H2, parse_anchored by apply final_wf.
  reflexivity.
Qed.

(** X1: the three replacements of [globToRegex] amount to one pass over the
    glob: two stars in a row give [.*], any other star [[^/]*], a question
    mark [.], a metacharacter itself after a backslash and any other
    byte itself, between the two anchors. *)
Theorem globToRegex_one_pass (g : string) :
  Ignore.globToRegex g = String "^" (Glob.translate g ++ "$").
Proof.
  destruct (final_translate _ g (le_n _)) as [H1 _].
  now rewrite globToRegex_final, <- H1.
Qed.

(** ** What the compiled patterns match *)

Lemma search_not_at_start (p : list Regexp.node) (s : string) :
  Regexp.search (Regexp.BeginText :: p) s false = false.
Proof. induction s as [|c s IH]; [reflexivity|]. cbn. exact IH. Qed.

Lemma search_BeginText (p : list Regexp.node) (s : string) :
  Regexp.search (Regexp.BeginText :: p) s true = Regexp.match_here p s true.
Proof.
  destruct s as [|c s]; cbn.
  - now rewrite orb_false_r.
  - fold (Regexp.search (Regexp.BeginText :: p) s false).
    now rewrite search_not_at_start, orb_false_r.
Qed.

(** Matching one compiled pattern is matching the nodes of the cleaned
    pattern from the start of the path to its end. *)
Lemma MatchString_regex_of (g rel : string) :
  Regexp.MatchString (regex_of g) rel
  = Regexp.match_here (Glob.nodes (Filepath.Clean g) ++ [Regexp.EndText]) rel true.
Proof.
  unfold Regexp.MatchString. now rewrite prog_regex_of, search_BeginText.
Qed.

Lemma match_compiled_existsb (patterns : list string) (rel : string) :
  match_compiled patterns rel
  = Some (existsb (fun g => Regexp.MatchString (regex_of g) rel) patterns).
Proof.
  unfold match_compiled. rewrite Compile_map, Match_existsb.
  f_equal. induction patterns as [|g gs IH]; [reflexivity|].
  cbn [map existsb]. now rewrite IH.
Qed.

Lemma match_here_star (a : Regexp.atom) (p : list Regexp.node) (s : string)
  (bot : bool) :
  Regexp.match_here (Regexp.Star a :: p) s bot
  = Regexp.match_here p s bot
    || match s with
       | String c s' =>
           Regexp.atom_matches a c
           && Regexp.match_here (Regexp.Star a :: p) s' false
       | EmptyString => false
       end.
Proof. destruct s; reflexivity. Qed.

Section Literal.
Import Glob.

(** A literal pattern is matched character by character. *)
Lemma literal_prefix (p : string) (tail : list Regexp.node) :
  literal p = true ->
  forall (s : string) (bot : bool),
    Regexp.match_here (nodes p ++ tail) (p ++ s) bot
    = Regexp.match_here tail s (bot && Nat.eqb (String.length p) 0).
Proof.
  induction p as [|c p IH]; intros H s bot.
  - cbn. now rewrite andb_true_r.
  - unfold literal in H. cbn [GoStrings.all_chars] in H.
    apply andb_true_iff in H. destruct H as [Hc Hp].
    unfold is_wildcard in Hc. apply negb_true_iff, orb_false_iff in Hc.
    destruct Hc as [H1 H2].
    cbn [nodes]. rewrite H1, H2.
    cbn [app append Regexp.match_here Regexp.atom_matches String.length Nat.eqb].
    rewrite Ascii.eqb_refl, (IH Hp). cbn [andb].
    now rewrite andb_false_r.
Qed.

Lemma literal_exact (p : string) :
  literal p = true ->
  forall (s : string) (bot : bool),
    Regexp.match_here (nodes p ++ [Regexp.EndText]) s bot = String.eqb p s.
Proof.
  induction p as [|c p IH]; intros H s bot.
  - destruct s; reflexivity.
  - unfold literal in H. cbn [GoStrings.all_chars] in H.
    apply andb_true_iff in H. destruct H as [Hc Hp].
    unfold is_wildcard in Hc. apply negb_true_iff, orb_false_iff in Hc.
    destruct Hc as [H1 H2].
    cbn [nodes]. rewrite H1, H2.
    destruct s as [|c' s]; [reflexivity|].
    cbn [app Regexp.match_here Regexp.atom_matches String.eqb].
    rewrite (IH Hp). now destruct (Ascii.eqb c c').
Qed.

End Literal.

(** ** Cleaning a pattern *)

Section Cleaning.
Import Filepath.


Lemma elements_not_nil (s : string) : elements s <> [].
Proof.
  induction s as [|c s IH]; cbn [elements]; [discriminate|].
  destruct (Ascii.eqb c Separator); [discriminate|].
  destruct (elements s); discriminate.
Qed.

Lemma elements_snoc (g : string) : elements (g ++ "/") = elements g ++ [""].
Proof.
  induction g as [|c g IH]; [reflexivity|].
  cbn [append elements]. rewrite IH.
  destruct (Ascii.eqb c Separator); [reflexivity|].
  pose proof (elements_not_nil g) as Hn.
  destruct (elements g) as [|e es]; [contradiction | reflexivity].
Qed.

Lemma Clean_trailing_separator (g : string) :
  g <> "" -> Clean (g ++ "/") = Clean g.
Proof.
  destruct g as [|c g]; [contradiction|]. intros _.
  unfold Clean. cbn [append].
  change (String c (g ++ "/")) with (String c g ++ "/")%string.
  rewrite elements_snoc, fold_left_app. reflexivity.
Qed.

Section AllChars.
Variable P : ascii -> bool.
Hypothesis P_dot : P "." = true.
Hypothesis P_sep : P "/" = true.






End AllChars.


End Cleaning.



(** X3: a separator at the end of a pattern is dropped before compiling:
    a non-empty pattern and the same pattern followed by a slash compile to
    the same expression. *)
Theorem trailing_separator_dropped (root g : string) :
  g <> "" ->
  Ignore.Compile root [(g ++ "/")%string] = Ignore.Compile root [g].
Proof.
  intros H. rewrite !Compile_map. cbn [map]. unfold regex_of.
  now rewrite Clean_trailing_separator.
Qed.

Lemma trailing_separator_dropped_witness :
  Ignore.Compile "/data" ["cache/"] = Ignore.Compile "/data" ["cache"].
Proof.
  apply (trailing_separator_dropped "/data" "cache"). discriminate.
Defined.

Section Wildcards.
Import Glob.

Lemma star_consumes_no_separator (tail : list Regexp.node) (s : string) :
  forall bot,
    Regexp.match_here (Regexp.Star (Regexp.Class true ["/"%char]) :: tail) s bot
    = true ->
    exists s2 bot2,
      Regexp.match_here tail s2 bot2 = true /\ count "/" s = count "/" s2.
Proof.
  induction s as [|c s IH]; intros bot H; rewrite match_here_star in H.
  - rewrite orb_false_r in H. now exists "", bot.
  - apply orb_true_iff in H. destruct H as [H|H]; [now exists (String c s), bot|].
    apply andb_true_iff in H. destruct H as [Hc H].
    destruct (IH false H) as (s2 & bot2 & H2 & Hn).
    exists s2, bot2. split; [exact H2|].
    cbn [count]. cbn [Regexp.atom_matches existsb] in Hc.
    rewrite orb_false_r in Hc. cbn [xorb] in Hc.
    apply negb_true_iff in Hc. now rewrite Hc.
Qed.

Lemma single_stars_count (p : string) :
  single_stars p = true ->
  forall (s : string) (bot : bool),
    Regexp.match_here (nodes p ++ [Regexp.EndText]) s bot = true ->
    count "/" s = count "/" p.
Proof.
  induction p as [|c p IH]; intros H s bot Hm.
  - destruct s; [reflexivity | discriminate Hm].
  - cbn [single_stars] in H.
    apply andb_true_iff in H. destruct H as [H Hp].
    apply andb_true_iff in H. destruct H as [Hq Hpair].
    apply negb_true_iff in Hq. specialize (IH Hp).
    cbn [nodes] in Hm. rewrite Hq in Hm.
    destruct (Ascii.eqb c "*") eqn:Es.
    + apply Ascii.eqb_eq in Es. subst c.
      assert (Hn : Regexp.match_here
                     (Regexp.Star (Regexp.Class true ["/"%char])
                      :: nodes p ++ [Regexp.EndText]) s bot = true).
      { destruct p as [|c' p']; [exact Hm|].
        cbn [andb] in Hpair. apply negb_true_iff in Hpair.
        rewrite Hpair in Hm. exact Hm. }
      destruct (star_consumes_no_separator _ s bot Hn) as (s2 & bot2 & H2 & Hc).
      rewrite Hc, (IH s2 bot2 H2). reflexivity.
    + cbn [app Regexp.match_here] in Hm.
      destruct s as [|c' s]; [discriminate Hm|].
      apply andb_true_iff in Hm. destruct Hm as [Hc Hm].
      cbn [Regexp.atom_matches] in Hc. apply Ascii.eqb_eq in Hc. subst c'.
      cbn [count]. now rewrite (IH s false Hm).
Qed.

Lemma nodes_literal_app (a r : string) :
  literal a = true -> nodes (a ++ r) = nodes a ++ nodes r.
Proof.
  induction a as [|c a IH]; intros H; [reflexivity|].
  unfold literal in H. cbn [GoStrings.all_chars] in H.
  apply andb_true_iff in H. destruct H as [Hc Ha].
  unfold is_wildcard in Hc. apply negb_true_iff, orb_false_iff in Hc.
  destruct Hc as [H1 H2].
  cbn [append nodes]. rewrite H1, H2, (IH Ha). reflexivity.
Qed.

End Wildcards.

(** X4: a single star never crosses a separator: when the cleaned pattern
    has no question mark and no two stars in a row, every path it matches
    has exactly as many separators as the pattern. *)
Theorem single_star_keeps_depth (g rel : string) :
  Glob.single_stars (Filepath.Clean g) = true ->
  match_compiled [g] rel = Some true ->
  Glob.count "/" rel = Glob.count "/" (Filepath.Clean g).
Proof.
  intros H Hm. rewrite match_compiled_existsb in Hm. cbn [existsb] in Hm.
  rewrite orb_false_r, MatchString_regex_of in Hm.
  injection Hm as Hm. exact (single_stars_count _ H rel true Hm).
Qed.

Lemma single_star_keeps_depth_witness :
  Glob.count "/" "logs/today.log" = Glob.count "/" (Filepath.Clean "logs/*.log").
Proof.
  apply (single_star_keeps_depth "logs/*.log" "logs/today.log");
    vm_compute; reflexivity.
Defined.

Lemma literal_prefix_inv (p : string) (tail : list Regexp.node) :
  Glob.literal p = true ->
  forall (s : string) (bot : bool),
    Regexp.match_here (Glob.nodes p ++ tail) s bot = true ->
    exists s', s = (p ++ s')%string.
Proof.
  induction p as [|c p IH]; intros H s bot Hm.
  - now exists s.
  - unfold Glob.literal in H. cbn [GoStrings.all_chars] in H.
    apply andb_true_iff in H. destruct H as [Hc Hp].
    unfold Glob.is_wildcard in Hc. apply negb_true_iff, orb_false_iff in Hc.
    destruct Hc as [H1 H2].
    cbn [Glob.nodes] in Hm. rewrite H1, H2 in Hm.
    destruct s as [|c' s]; [discriminate Hm|].
    cbn [app Regexp.match_here Regexp.atom_matches] in Hm.
    apply andb_true_iff in Hm. destruct Hm as [Hcc Hm].
    apply Ascii.eqb_eq in Hcc. subst c'.
    destruct (IH Hp s false Hm) as [s' ->]. now exists s'.
Qed.

(** X5: on a path of ASCII characters a question mark stands for exactly
    one character that is not a newline, the separator included: when the
    engine takes the pattern, made of a question mark between two literal
    parts and already clean, the paths it matches are the two parts around
    one such character, and no other: not the parts alone, nor the parts
    around two characters or around a newline. *)
Theorem question_mark_any_character (too_large : string -> bool)
  (root a b rel : string) (regexes : list Regexp.Regexp) :
  Glob.literal a = true -> Glob.literal b = true ->
  Filepath.Clean (a ++ String "?" b) = (a ++ String "?" b)%string ->
  GoStrings.all_chars GoStrings.is_ascii rel = true ->
  Ignore.Compile_checked too_large root [(a ++ String "?" b)%string]
  = Ok regexes ->
  Ignore.Match rel regexes = true
  <-> exists c, rel = (a ++ String c b)%string /\ c <> Regexp.newline.
Proof.
  intros Ha Hb Hclean _ Hc.
  rewrite Compile_checked_spec in Hc.
  destruct (first_refused _ _); [discriminate|]. injection Hc as <-.
  cbn [map Ignore.Match].
  rewrite MatchString_regex_of, Hclean.
  rewrite (nodes_literal_app a _ Ha), <- app_assoc.
  assert (Hq : Glob.nodes (String "?" b)
               = Regexp.One Regexp.AnyNotNL :: Glob.nodes b).
  { cbn [Glob.nodes]. change (Ascii.eqb "?" "*") with false.
    change (Ascii.eqb "?" "?") with true. reflexivity. }
  rewrite Hq. split.
  - intros Hm.
    destruct (Regexp.match_here _ rel true) eqn:E; [|discriminate Hm].
    destruct (literal_prefix_inv a _ Ha rel true E) as [s' ->].
    rewrite (literal_prefix a _ Ha) in E.
    destruct s' as [|c s']; [discriminate E|].
    cbn [app Regexp.match_here Regexp.atom_matches] in E.
    apply andb_true_iff in E. destruct E as [Hn E].
    rewrite (literal_exact b Hb) in E. apply String.eqb_eq in E. subst s'.
    exists c. split; [reflexivity|].
    intros ->. rewrite Ascii.eqb_refl in Hn. discriminate Hn.
  - intros (c & -> & Hn).
    rewrite (literal_prefix a _ Ha).
    cbn [app Regexp.match_here Regexp.atom_matches].
    rewrite (literal_exact b Hb), String.eqb_refl.
    apply Ascii.eqb_neq in Hn. now rewrite Hn.
Qed.

Lemma question_mark_any_character_witness :
  Ignore.Match "tmp/old" [regex_of "tmp?old"] = true
  /\ Ignore.Match "tmpold" [regex_of "tmp?old"] = false.
Proof.
  pose proof (question_mark_any_character (Watcher.TooLarge Sample.host) "/data"
                "tmp" "old" "tmp/old" [regex_of "tmp?old"]
                eq_refl eq_refl eq_refl eq_refl eq_refl) as H1.
  pose proof (question_mark_any_character (Watcher.TooLarge Sample.host) "/data"
                "tmp" "old" "tmpold" [regex_of "tmp?old"]
                eq_refl eq_refl eq_refl eq_refl eq_refl) as H2.
  split.
  - apply H1. exists "/"%char. split; [reflexivity | discriminate].
  - destruct (Ignore.Match "tmpold" [regex_of "tmp?old"]) eqn:E; [|reflexivity].
    destruct (proj1 H2 eq_refl) as (c & Hc & _). discriminate Hc.
Defined.



(** ** Registering watches *)

Section Watches.
Import Watcher Inputs.

Lemma add_entries_spec (fs : FS) (entries : list DirEntry) (w : Watcher) :
  exists added rest,
    fst (add_entries fs w entries) = w ++ added
    /\ directories entries = added ++ rest
    /\ (snd (add_entries fs w entries) = None -> rest = []).
Proof.
  revert w. induction entries as [|d entries IH]; intros w.
  - exists [], []. cbn. now rewrite app_nil_r.
  - cbn [add_entries]. unfold directories. cbn [filter].
    destruct (walk_err d) as [err|].
    + exists [], (directories (d :: entries)). cbn [fst snd].
      rewrite app_nil_r. repeat split. discriminate.
    + destruct (IsDir d) eqn:Ed.
      * destruct (Add_err fs (path d)) as [err|].
        -- exists [], (directories (d :: entries)). cbn [fst snd].
           rewrite app_nil_r. unfold directories. cbn [filter]. rewrite Ed.
           repeat split. discriminate.
        -- destruct (IH (w ++ [path d])) as (added & rest & H1 & H2 & H3).
           exists (path d :: added), rest.
           rewrite H1, <- app_assoc. cbn [map app].
           unfold directories in H2. rewrite H2. repeat split. exact H3.
      * destruct (IH w) as (added & rest & H1 & H2 & H3).
        exists added, rest. repeat split; assumption.
Qed.

End Watches.

Lemma addRecursive_spec (fs : Watcher.FS) (w : Watcher.Watcher)
  (root : string) :
  exists added rest,
    fst (Watcher.addRecursive fs w root) = w ++ added
    /\ Inputs.directories (Watcher.WalkDir fs root) = added ++ rest
    /\ (snd (Watcher.addRecursive fs w root) = None -> rest = []).
Proof. apply add_entries_spec. Qed.

Lemma add_entries_all (fs : Watcher.FS) (entries : list Watcher.DirEntry)
  (w : Watcher.Watcher) :
  Forall (fun d => Inputs.entry_error fs d = None) entries ->
  Watcher.add_entries fs w entries = (w ++ Inputs.directories entries, None).
Proof.
  intros H. revert w. induction H as [|d entries Hd _ IH]; intros w.
  - cbn. now rewrite app_nil_r.
  - cbn [Watcher.add_entries]. unfold Inputs.directories, Inputs.entry_error in *.
    cbn [filter]. destruct (Watcher.walk_err d); [discriminate Hd|].
    destruct (Watcher.IsDir d); [|apply IH].
    rewrite Hd, IH, <- app_assoc. reflexivity.
Qed.

Lemma add_entries_first_error (fs : Watcher.FS)
  (before after : list Watcher.DirEntry) (d : Watcher.DirEntry) (err : string)
  (w : Watcher.Watcher) :
  Forall (fun d => Inputs.entry_error fs d = None) before ->
  Inputs.entry_error fs d = Some err ->
  Watcher.add_entries fs w (before ++ d :: after)
  = (w ++ Inputs.directories before, Some err).
Proof.
  intros H Hd. revert w. induction H as [|x before Hx _ IH]; intros w.
  - cbn [app Watcher.add_entries]. unfold Inputs.entry_error in Hd.
    rewrite app_nil_r.
    destruct (Watcher.walk_err d); [now injection Hd as ->|].
    destruct (Watcher.IsDir d); [|discriminate Hd]. now rewrite Hd.
  - cbn [app Watcher.add_entries]. unfold Inputs.directories, Inputs.entry_error in *.
    cbn [filter]. destruct (Watcher.walk_err x); [discriminate Hx|].
    destruct (Watcher.IsDir x); [|apply IH].
    rewrite Hx, IH, <- app_assoc. reflexivity.
Qed.

(** X7: [addRecursive] calls [Add] on directories only, in the order of the
    walk.  When no entry of the walk fails, neither in the walk nor in
    [Add], it returns no error and has added every directory of the walk
    after what was added before.  Otherwise it returns the error of the
    first entry that fails, having added the directories the walk met
    before that entry and none after it. *)
Theorem addRecursive_registers_directories (fs : Watcher.FS)
  (w : Watcher.Watcher) (root : string) :
  let entries := Watcher.WalkDir fs root in
  (Forall (fun d => Inputs.entry_error fs d = None) entries ->
   Watcher.addRecursive fs w root = (w ++ Inputs.directories entries, None))
  /\ (forall before d after err,
        entries = before ++ d :: after ->
        Forall (fun d => Inputs.entry_error fs d = None) before ->
        Inputs.entry_error fs d = Some err ->
        Watcher.addRecursive fs w root
        = (w ++ Inputs.directories before, Some err)).
Proof.
  cbv zeta. unfold Watcher.addRecursive. split.
  - apply add_entries_all.
  - intros before d after err -> Hb Hd. now apply add_entries_first_error.
Qed.

Lemma addRecursive_registers_directories_witness :
  Watcher.addRecursive Sample2.tree ["/other"] "/data"
  = (["/other"; "/data"; "/data/sub"], None)
  /\ Watcher.addRecursive Sample2.locked ["/other"] "/data"
     = (["/other"; "/data"], Some "permission denied").
Proof.
  split.
  - apply (addRecursive_registers_directories Sample2.tree ["/other"] "/data").
    repeat constructor.
  - apply (addRecursive_registers_directories Sample2.locked ["/other"] "/data")
      with (before := [{| Watcher.path := "/data"; Watcher.IsDir := true;
                          Watcher.walk_err := None |};
                       {| Watcher.path := "/data/f.txt"; Watcher.IsDir := false;
                          Watcher.walk_err := None |}])
           (d := {| Watcher.path := "/data/sub"; Watcher.IsDir := true;
                    Watcher.walk_err := None |})
           (after := [{| Watcher.path := "/data/sub/deep"; Watcher.IsDir := true;
                         Watcher.walk_err := None |}]).
    + reflexivity.
    + repeat constructor.
    + reflexivity.
Defined.

(** X9: a directory created under the root is watched from then on: an
    event that is not ignored, has the create bit and names a directory
    registers the directories of the walk of that directory (all of them when
    the walk meets no error); an event that lacks the create bit or does not
    name a directory registers nothing. *)
Theorem new_directory_is_watched (h : Watcher.Host) (rr : Watcher.ruleRunner)
  (st : Watcher.state) (now : Z) (ev : Watcher.Event) (fs : Watcher.FS) :
  let st' := Watcher.iteration h rr st (now, Watcher.FsEvent ev fs) in
  Watcher.stopped st = false ->
  Trace.ignored h rr ev = false ->
  (N.land (Watcher.EvOp ev) Watcher.Create <> 0%N ->
   Watcher.Stat_IsDir fs (Watcher.Name ev) = true ->
   snd (Watcher.addRecursive fs (Watcher.watcher st) (Watcher.Name ev)) = None ->
   Watcher.watcher st'
   = Watcher.watcher st
     ++ Inputs.directories (Watcher.WalkDir fs (Watcher.Name ev)))
  /\ (N.land (Watcher.EvOp ev) Watcher.Create = 0%N
      \/ Watcher.Stat_IsDir fs (Watcher.Name ev) = false ->
      Watcher.watcher st' = Watcher.watcher st).
Proof.
  cbv zeta. intros Hs Hi.
  destruct (iteration_event h rr st now ev fs Hs) as (_ & Hw & _).
  rewrite Hw, watcher_fire. unfold Watcher.handleEvent.
  unfold Trace.ignored, Trace.rel_of in Hi. rewrite Hi.
  split.
  - intros Hc Hd Ha. apply N.eqb_neq in Hc. rewrite Hc, Hd. cbn [negb andb fst].
    destruct (addRecursive_spec fs (Watcher.watcher st) (Watcher.Name ev))
      as (added & rest & H1 & H2 & H3).
    specialize (H3 Ha). subst rest. rewrite app_nil_r in H2.
    now rewrite H1, H2.
  - intros [Hc|Hd].
    + apply N.eqb_eq in Hc. now rewrite Hc.
    + rewrite Hd, andb_false_r. reflexivity.
Qed.

(** ** Stopping, ticking and the number of synchronizations *)

Section LoopMore.
Import Watcher Inputs.
Variables (h : Host) (rr : ruleRunner).
Let W := Config.DebounceWindow (rule rr).

Lemma iteration_stopped (st : state) (ti : Z * input) :
  stopped st = true -> iteration h rr st ti = fire rr (fst ti) st.
Proof. intros H. unfold iteration. now rewrite stopped_fire, H. Qed.

Lemma iteration_Stop (st : state) (now : Z) :
  stopped st = false ->
  let s1 := fire rr now st in
  let st' := iteration h rr st (now, Stop) in
  stopped st' = true /\ timer st' = timer s1 /\ watcher st' = watcher s1
  /\ exists acts,
       trace st' = trace s1 ++ acts
       /\ Forall (fun ta => match snd ta with RSync _ => False | _ => True end)
                 acts.
Proof.
  intros Hs. cbv zeta. unfold iteration. cbn [fst snd].
  rewrite stopped_fire, Hs. cbn [stopped timer watcher trace emit].
  repeat split. eexists. split; [reflexivity|].
  destruct (ticker (fire rr now st)); repeat constructor.
Qed.

Lemma syncs_no_RSync (reason : string) (acts : list (Z * action)) :
  Forall (fun ta => match snd ta with RSync _ => False | _ => True end) acts ->
  Trace.syncs reason acts = [].
Proof.
  induction 1 as [|[t a] acts Ha _ IH]; [reflexivity|].
  unfold Trace.syncs, Trace.is_sync in *. cbn [filter snd] in *.
  destruct a; try exact IH. contradiction.
Qed.

Lemma fire_spent (T t : Z) (st : state) :
  timer st = Some {| when := t; pending := false |} -> fire rr T st = st.
Proof. intros H. unfold fire. now rewrite H. Qed.

Lemma stopped_iteration (st : state) (ti : Z * input) :
  is_Stop ti = false -> stopped (iteration h rr st ti) = stopped st.
Proof.
  intros Hn. destruct (stopped st) eqn:Hs.
  - now rewrite iteration_stopped, stopped_fire.
  - destruct ti as [now i]. unfold is_Stop in Hn. cbn [snd] in Hn.
    destruct i as [ev fs|err| |]; try discriminate Hn.
    + now destruct (iteration_event h rr st now ev fs Hs) as [H _].
    + unfold iteration. cbn [fst snd]. rewrite stopped_fire, Hs.
      cbn [emit stopped]. now rewrite stopped_fire.
    + unfold iteration. cbn [fst snd]. rewrite stopped_fire, Hs.
      destruct (ticker _); cbn [emit stopped]; now rewrite stopped_fire.
Qed.

Lemma stopped_loop (inputs : list (Z * input)) (st : state) :
  no_stop inputs = true -> stopped (loop h rr st inputs) = stopped st.
Proof.
  unfold loop. revert st. induction inputs as [|ti inputs IH]; intros st H.
  - reflexivity.
  - cbn [no_stop forallb] in H. apply andb_true_iff in H.
    destruct H as [H1 H2]. apply negb_true_iff in H1.
    cbn [fold_left]. now rewrite (IH _ H2), stopped_iteration.
Qed.

Lemma stopped_stays (inputs : list (Z * input)) (st : state) :
  stopped st = true -> stopped (loop h rr st inputs) = true.
Proof.
  unfold loop. revert st. induction inputs as [|ti inputs IH]; intros st H.
  - exact H.
  - cbn [fold_left]. apply IH. now rewrite iteration_stopped, stopped_fire.
Qed.

(** The runner's log entry has the rule as its only field. *)
Hypothesis log_rule : exists x, log rr = [("rule", x)].

Lemma tagged_other (reason reason' : string) :
  reason <> reason' -> Trace.tagged reason' (syncOnce rr reason) = false.
Proof.
  intros Hn. destruct log_rule as [x Hx].
  unfold Trace.tagged, syncOnce, Logging.WithField. cbn [Gsutil.log].
  rewrite Hx. cbn [app existsb fst snd].
  apply String.eqb_neq in Hn. rewrite Hn.
  rewrite andb_false_r. reflexivity.
Qed.

Lemma syncs_fire_other (reason : string) (now : Z) (st : state) :
  reason <> "debounce" ->
  Trace.syncs reason (trace (fire rr now st)) = Trace.syncs reason (trace st).
Proof.
  intros Hn. unfold fire. destruct (timer st) as [tm|]; [|reflexivity].
  destruct (pending tm && (when tm <=? now)%Z); [|reflexivity].
  cbn [trace]. rewrite syncs_app.
  unfold Trace.syncs at 2. unfold Trace.is_sync. cbn [filter snd].
  rewrite tagged_other by congruence. cbn. now rewrite app_nil_r.
Qed.

(** The synchronizations tagged periodic pull an iteration adds. *)
Lemma pulls_iteration (st : state) (ti : Z * input) :
  stopped st = false ->
  Trace.syncs "periodic pull" (trace (iteration h rr st ti))
  = Trace.syncs "periodic pull" (trace st)
    ++ (if is_Tick ti
        then match ticker st with Some _ => [fst ti] | None => [] end
        else []).
Proof.
  intros Hs. destruct ti as [now i].
  rewrite <- (syncs_fire_other "periodic pull" now st) by discriminate.
  unfold is_Tick. cbn [fst snd].
  destruct i as [ev fs|err| |].
  - destruct (handleEvent_logs h rr ev fs (watcher (fire rr now st))) as [m Hm].
    unfold iteration. cbn [fst snd]. rewrite stopped_fire, Hs.
    destruct (handleEvent h rr ev fs (watcher (fire rr now st))) as [w acts].
    cbn [snd] in Hm. subst acts.
    unfold resetDebounce, emit. cbn [timer trace map].
    destruct (timer (fire rr now st)); cbn [trace];
      rewrite <- !app_assoc, syncs_app; f_equal; reflexivity.
  - unfold iteration. cbn [fst snd]. rewrite stopped_fire, Hs.
    cbn [emit trace map]. rewrite syncs_app. reflexivity.
  - unfold iteration. cbn [fst snd]. rewrite stopped_fire, Hs, ticker_fire.
    destruct (ticker st); [|now rewrite app_nil_r].
    cbn [emit trace map]. rewrite syncs_app. f_equal.
    unfold Trace.syncs, Trace.is_sync. cbn [filter snd].
    now rewrite tagged_syncOnce.
  - destruct (iteration_Stop st now Hs) as (_ & _ & _ & acts & Ha & Hf).
    rewrite Ha, syncs_app, (syncs_no_RSync _ acts Hf). reflexivity.
Qed.

Lemma pulls_loop (inputs : list (Z * input)) (st : state) :
  stopped st = false -> no_stop inputs = true ->
  Trace.syncs "periodic pull" (trace (loop h rr st inputs))
  = Trace.syncs "periodic pull" (trace st)
    ++ match ticker st with Some _ => tick_times inputs | None => [] end.
Proof.
  unfold loop. revert st. induction inputs as [|ti inputs IH]; intros st Hs Hn.
  - cbn. destruct (ticker st); now rewrite app_nil_r.
  - cbn [no_stop forallb] in Hn. apply andb_true_iff in Hn.
    destruct Hn as [H1 H2]. apply negb_true_iff in H1.
    cbn [fold_left]. rewrite IH.
    + rewrite (pulls_iteration st ti Hs), <- app_assoc, ticker_iteration.
      f_equal. unfold tick_times. cbn [filter].
      destruct (ticker st); destruct (is_Tick ti); reflexivity.
    + now rewrite stopped_iteration.
    + exact H2.
Qed.

(** Synchronizations tagged debounce made, plus the one still to come. *)
Let debounced (st : state) : nat :=
  List.length (Trace.syncs "debounce" (trace st)) + pending_timers st.

Lemma debounced_fire (now : Z) (st : state) :
  debounced (fire rr now st) = debounced st.
Proof.
  unfold debounced, pending_timers, fire.
  destruct (timer st) as [[t p]|] eqn:Et; [|now rewrite Et].
  cbn [pending when]. destruct p; cbn [andb]; [|now rewrite Et].
  destruct (t <=? now)%Z; [|now rewrite Et].
  cbn [trace timer pending]. rewrite syncs_app, length_app.
  unfold Trace.syncs at 2. unfold Trace.is_sync. cbn [filter snd].
  rewrite tagged_syncOnce. cbn. lia.
Qed.

Lemma debounced_iteration (st : state) (ti : Z * input) :
  debounced (iteration h rr st ti)
  <= debounced st + (if is_FsEvent ti then 1 else 0).
Proof.
  destruct ti as [now i]. rewrite <- (debounced_fire now st).
  destruct (stopped st) eqn:Hs.
  { rewrite iteration_stopped by exact Hs. cbn [fst]. lia. }
  unfold is_FsEvent. cbn [snd].
  destruct i as [ev fs|err| |].
  - destruct (iteration_event h rr st now ev fs Hs) as (_ & _ & Ht & Hy & _).
    unfold debounced, pending_timers. rewrite Hy, Ht. cbn [pending].
    destruct (timer (fire rr now st)) as [[t p]|]; [destruct p|]; lia.
  - unfold iteration. cbn [fst snd]. rewrite stopped_fire, Hs.
    unfold debounced, pending_timers. cbn [emit trace timer map].
    rewrite syncs_app. cbn. rewrite app_nil_r. lia.
  - unfold iteration. cbn [fst snd]. rewrite stopped_fire, Hs.
    destruct (ticker (fire rr now st)); [|lia].
    unfold debounced, pending_timers. cbn [emit trace timer map].
    rewrite syncs_app. unfold Trace.syncs at 2. unfold Trace.is_sync.
    cbn [filter snd]. rewrite tagged_other by discriminate.
    cbn. rewrite app_nil_r. lia.
  - destruct (iteration_Stop st now Hs) as (_ & Ht & _ & acts & Ha & Hf).
    unfold debounced, pending_timers.
    rewrite Ht, Ha, syncs_app, (syncs_no_RSync _ acts Hf), app_nil_r. lia.
Qed.

Lemma debounced_loop (inputs : list (Z * input)) (st : state) :
  debounced (loop h rr st inputs) <= debounced st + event_count inputs.
Proof.
  unfold loop. revert st. induction inputs as [|ti inputs IH]; intros st.
  - cbn. lia.
  - cbn [fold_left]. specialize (IH (iteration h rr st ti)).
    pose proof (debounced_iteration st ti) as H1.
    unfold event_count in *. cbn [filter].
    destruct (is_FsEvent ti); cbn [List.length]; lia.
Qed.

Lemma debounce_syncs_bound (now : Z) (new_watcher_err : option string)
  (fs : FS) (st0 : state) (inputs : list (Z * input)) :
  start rr now new_watcher_err fs = Entered st0 ->
  List.length (Trace.syncs "debounce" (trace (loop h rr st0 inputs)))
  <= event_count inputs.
Proof.
  intros Hst. pose proof (debounced_loop inputs st0) as H.
  assert (H0 : debounced st0 = 0).
  { unfold start in Hst. destruct new_watcher_err; [discriminate|].
    destruct (addRecursive fs [] (srcRoot rr)) as [w [err|]]; [discriminate|].
    unfold debounced, pending_timers.
    destruct (containsDir _ _ || containsDir _ _).
    - destruct (_ <=? 0)%Z; [discriminate|]. injection Hst as <-.
      cbn [trace timer].
      unfold Trace.syncs, Trace.is_sync. cbn [app filter snd].
      now rewrite tagged_other by discriminate.
    - injection Hst as <-. cbn [trace timer].
      unfold Trace.syncs, Trace.is_sync. cbn [filter snd].
      now rewrite tagged_other by discriminate. }
  unfold debounced in *. lia.
Qed.

End LoopMore.

Lemma log_of_newRuleRunner (h : Watcher.Host) (r : Config.SyncRule)
  (rr : Watcher.ruleRunner) :
  Watcher.newRuleRunner h r = Ok rr -> exists x, Watcher.log rr = [("rule", x)].
Proof. intros E. apply newRuleRunner_Ok in E as ->. eexists. reflexivity. Qed.

(** X10: stopping the loop does not stop the debounce timer: after an
    event, the stop signal ends the loop and leaves the timer as it is, so
    that its expiry still makes the synchronization tagged debounce, at the
    deadline and once, whether the signal came before or after it. *)
Theorem stop_keeps_pending_debounce (h : Watcher.Host)
  (rr : Watcher.ruleRunner) (st : Watcher.state) (t t2 T : Z)
  (ev : Watcher.Event) (fs : Watcher.FS) :
  let W := Config.DebounceWindow (Watcher.rule rr) in
  let st' := Watcher.loop h rr st
               [(t, Watcher.FsEvent ev fs); (t2, Watcher.Stop)] in
  Watcher.stopped st = false ->
  Trace.quiet_until st t ->
  (Watcher.deadline t W <= T)%Z ->
  Watcher.stopped st' = true
  /\ Trace.syncs "debounce" (Watcher.trace (Watcher.fire rr T st'))
     = Trace.syncs "debounce" (Watcher.trace st) ++ [Watcher.deadline t W].
Proof.
  cbv zeta. intros Hs Hq HT. unfold Watcher.loop. cbn [fold_left].
  destruct (iteration_event h rr st t ev fs Hs) as (Hs1 & _ & Ht1 & Hy1 & _).
  rewrite (fire_quiet rr t st Hq) in Hy1.
  set (st1 := Watcher.iteration h rr st (t, Watcher.FsEvent ev fs)) in *.
  destruct (iteration_Stop h rr st1 t2 Hs1) as (Hs2 & Ht2 & _ & acts & Ha & Hf).
  set (st2 := Watcher.iteration h rr st1 (t2, Watcher.Stop)) in *.
  split; [exact Hs2|].
  destruct (Watcher.deadline t (Config.DebounceWindow (Watcher.rule rr)) <=? t2)%Z
    eqn:E.
  - apply Z.leb_le in E.
    destruct (fire_due rr t2 _ st1 Ht1 E) as [Hy Hsp].
    rewrite Hsp in Ht2. rewrite (fire_spent rr T _ st2 Ht2).
    rewrite Ha, syncs_app, Hy, Hy1, (syncs_no_RSync _ acts Hf).
    now rewrite app_nil_r.
  - apply Z.leb_gt in E.
    assert (Hq1 : Trace.quiet_until st1 t2).
    { unfold Trace.quiet_until. rewrite Ht1. intros _. exact E. }
    rewrite (fire_quiet rr t2 st1 Hq1) in Ht2, Ha.
    rewrite Ht1 in Ht2.
    destruct (fire_due rr T _ st2 Ht2 HT) as [Hy _].
    rewrite Hy, Ha, syncs_app, Hy1, (syncs_no_RSync _ acts Hf).
    now rewrite app_nil_r.
Qed.

Lemma stop_keeps_pending_debounce_witness :
  let rr := Sample.runner Sample.mirror in
  let st' := Watcher.loop Sample.host rr (Sample.entered Sample.mirror)
               [(10%Z, Watcher.FsEvent (Sample.write "/data/a") Sample.fs);
                (20%Z, Watcher.Stop)] in
  Watcher.stopped st' = true
  /\ Trace.syncs "debounce" (Watcher.trace (Watcher.fire rr 3000000010 st'))
     = [3000000010%Z].
Proof.
  cbv zeta.
  apply (stop_keeps_pending_debounce Sample.host (Sample.runner Sample.mirror)
           (Sample.entered Sample.mirror) 10 20 3000000010
           (Sample.write "/data/a") Sample.fs).
  - reflexivity.
  - exact I.
  - discriminate.
Defined.

(** X11: only the stop signal ends the loop: events, watch errors, failed
    registrations and ticks leave it running, and once the signal was
    received the loop stays stopped whatever comes after. *)
Theorem only_stop_ends_the_loop (h : Watcher.Host) (rr : Watcher.ruleRunner)
  (st : Watcher.state) (inputs : list (Z * Watcher.input)) :
  (Inputs.no_stop inputs = true ->
   Watcher.stopped (Watcher.loop h rr st inputs) = Watcher.stopped st)
  /\ (forall t after,
        Watcher.stopped
          (Watcher.loop h rr st (inputs ++ (t, Watcher.Stop) :: after)) = true).
Proof.
  split; [apply stopped_loop|].
  intros t after. unfold Watcher.loop. rewrite fold_left_app. cbn [fold_left].
  apply stopped_stays.
  set (s := fold_left (Watcher.iteration h rr) inputs st).
  destruct (Watcher.stopped s) eqn:Hs.
  - now rewrite iteration_stopped, stopped_fire.
  - now destruct (iteration_Stop h rr s t Hs) as [H _].
Qed.

Lemma only_stop_ends_the_loop_witness :
  Watcher.stopped
    (Watcher.loop Sample.host (Sample.runner Sample.mirror)
       (Sample.entered Sample.mirror)
       [(5%Z, Watcher.FsError "overflow"); (6%Z, Watcher.Tick)]) = false.
Proof.
  apply (only_stop_ends_the_loop Sample.host (Sample.runner Sample.mirror)
           (Sample.entered Sample.mirror)
           [(5%Z, Watcher.FsError "overflow"); (6%Z, Watcher.Tick)]).
  reflexivity.
Defined.

(** X12: every tick received by a running loop makes exactly one
    synchronization tagged periodic pull, at the time of the tick, whatever
    the state of the debounce timer; a runner without ticker makes none. *)
Theorem one_pull_per_tick (h : Watcher.Host) (r : Config.SyncRule)
  (rr : Watcher.ruleRunner) (st : Watcher.state)
  (inputs : list (Z * Watcher.input)) :
  Watcher.newRuleRunner h r = Ok rr ->
  Watcher.stopped st = false ->
  Inputs.no_stop inputs = true ->
  Trace.syncs "periodic pull" (Watcher.trace (Watcher.loop h rr st inputs))
  = Trace.syncs "periodic pull" (Watcher.trace st)
    ++ match Watcher.ticker st with
       | Some _ => Inputs.tick_times inputs
       | None => []
       end.
Proof.
  intros Hr Hs Hn.
  exact (pulls_loop h rr (log_of_newRuleRunner h r rr Hr) inputs st Hs Hn).
Qed.

Lemma one_pull_per_tick_witness :
  Trace.syncs "periodic pull"
    (Watcher.trace
       (Watcher.loop Sample.host (Sample.runner Sample.mirror)
          (Sample.entered Sample.mirror)
          [(5%Z, Watcher.Tick);
           (7%Z, Watcher.FsEvent (Sample.write "/data/a") Sample.fs);
           (9%Z, Watcher.Tick)]))
  = [5%Z; 9%Z].
Proof.
  rewrite (one_pull_per_tick Sample.host Sample.mirror
             (Sample.runner Sample.mirror) (Sample.entered Sample.mirror));
    reflexivity.
Defined.

(** X13: no synchronization tagged debounce is made without an event: in
    any run, their number is at most the number of filesystem events the
    loop received. *)
Theorem debounce_needs_an_event (h : Watcher.Host) (r : Config.SyncRule)
  (rr : Watcher.ruleRunner) (now : Z) (new_watcher_err : option string)
  (fs : Watcher.FS) (inputs : list (Z * Watcher.input)) (st : Watcher.state) :
  Watcher.newRuleRunner h r = Ok rr ->
  Watcher.run h rr now new_watcher_err fs inputs = Watcher.Entered st ->
  List.length (Trace.syncs "debounce" (Watcher.trace st))
  <= Inputs.event_count inputs.
Proof.
  intros Hr Hrun. unfold Watcher.run in Hrun.
  destruct (Watcher.start rr now new_watcher_err fs) as [err|msg|st0] eqn:Es;
    try discriminate.
  injection Hrun as <-.
  exact (debounce_syncs_bound h rr (log_of_newRuleRunner h r rr Hr)
           now new_watcher_err fs st0 inputs Es).
Qed.

Lemma debounce_needs_an_event_witness :
  List.length
    (Trace.syncs "debounce"
       (Watcher.trace
          (Watcher.loop Sample.host (Sample.runner Sample.mirror)
             (Sample.entered Sample.mirror)
             [(5%Z, Watcher.Tick); (4000000000%Z, Watcher.Tick)])))
  <= 0.
Proof.
  apply (debounce_needs_an_event Sample.host Sample.mirror
           (Sample.runner Sample.mirror) 0 None Sample.fs
           [(5%Z, Watcher.Tick); (4000000000%Z, Watcher.Tick)]).
  - reflexivity.
  - reflexivity.
Defined.

Lemma new_directory_is_watched_witness :
  Watcher.watcher
    (Watcher.iteration Sample.host (Sample.runner Sample.mirror)
       (Sample.entered Sample.mirror)
       (10%Z, Watcher.FsEvent (Sample2.mkdir "/data/new") Sample2.tree))
  = ["/data"; "/data/new"; "/data/new/sub"]
  /\ Watcher.watcher
       (Watcher.iteration Sample.host (Sample.runner Sample.mirror)
          (Sample.entered Sample.mirror)
          (10%Z, Watcher.FsEvent (Sample.write "/data/new") Sample2.tree))
     = ["/data"].
Proof.
  split.
  - destruct (new_directory_is_watched Sample.host (Sample.runner Sample.mirror)
                (Sample.entered Sample.mirror) 10 (Sample2.mkdir "/data/new")
                Sample2.tree) as [H _];
      [reflexivity | vm_compute; reflexivity |].
    rewrite H; [reflexivity | discriminate | reflexivity | reflexivity].
  - destruct (new_directory_is_watched Sample.host (Sample.runner Sample.mirror)
                (Sample.entered Sample.mirror) 10 (Sample.write "/data/new")
                Sample2.tree) as [_ H];
      [reflexivity | vm_compute; reflexivity |].
    rewrite H; [reflexivity | left; reflexivity].
Defined.

(** ** Starting *)

Lemma start_rules_all_disabled {E : Type}
  (construct : Config.SyncRule -> result E Watcher.ruleRunner)
  (rules : list Config.SyncRule) (started : list Watcher.ruleRunner) :
  Forall (fun r => Config.Enabled r = false) rules ->
  Watcher.start_rules construct rules started = (started, None).
Proof.
  induction 1 as [|r rules Hr _ IH]; [reflexivity|].
  cbn [Watcher.start_rules]. now rewrite Hr.
Qed.

(** X14: a rule that is not enabled is never constructed: when every rule
    of the YAML document lacks the [enabled] key or sets it to false, the
    start hook starts no runner and returns no error, even with a
    constructor that would fail on each of them. *)
Theorem disabled_rules_are_skipped {E : Type}
  (construct : Config.SyncRule -> result E Watcher.ruleRunner)
  (doc : list Config.yamlRule) :
  Forall (fun y => Config.y_enabled y <> Some true) doc ->
  Watcher.start_rules construct (Config.Sync (Config.Unmarshal doc)) []
  = ([], None).
Proof.
  intros H. apply start_rules_all_disabled.
  unfold Config.Unmarshal. cbn [Config.Sync].
  induction H as [|y doc Hy _ IH]; cbn [map]; constructor; [|exact IH].
  unfold Config.unmarshalRule. cbn [Config.Enabled].
  destruct (Config.y_enabled y) as [[]|]; [contradiction | |]; reflexivity.
Qed.

Lemma disabled_rules_are_skipped_witness :
  Watcher.start_rules Sample2.refuse
    (Config.Sync (Config.Unmarshal [Sample2.unmarked])) []
  = ([], None).
Proof.
  apply (disabled_rules_are_skipped Sample2.refuse [Sample2.unmarked]).
  repeat constructor. discriminate.
Defined.

(** X15: a rule that polls the remote side needs a positive remote-poll
    window: with [remote_to_local] or [full] among its directions and a
    window that is zero (as when the key is absent) or negative, [run]
    panics as soon as the initial watch has succeeded, whatever it would
    have received. *)
Theorem polling_without_window_panics (h : Watcher.Host)
  (rr : Watcher.ruleRunner) (now : Z) (fs : Watcher.FS)
  (inputs : list (Z * Watcher.input)) :
  let dirs := Config.Directions (Watcher.rule rr) in
  In Config.RemoteToLocal dirs \/ In Config.Full dirs ->
  (Config.RemotePollWindow (Watcher.rule rr) <= 0)%Z ->
  snd (Watcher.addRecursive fs [] (Watcher.srcRoot rr)) = None ->
  Watcher.run h rr now None fs inputs
  = Watcher.Panicked "non-positive interval for NewTicker".
Proof.
  cbv zeta. intros Hd Hw Ha. unfold Watcher.run, Watcher.start.
  destruct (Watcher.addRecursive fs [] (Watcher.srcRoot rr)) as [w [err|]];
    [discriminate Ha|].
  assert (Hc : Watcher.containsDir (Config.Directions (Watcher.rule rr))
                 Config.RemoteToLocal
               || Watcher.containsDir (Config.Directions (Watcher.rule rr))
                    Config.Full = true).
  { apply orb_true_iff. rewrite !containsDir_In. exact Hd. }
  rewrite Hc. apply Z.leb_le in Hw. now rewrite Hw.
Qed.

Lemma polling_without_window_panics_witness :
  Watcher.run Sample.host
    (Sample.runner (Config.unmarshalRule Sample2.two_way)) 0 None Sample.fs []
  = Watcher.Panicked "non-positive interval for NewTicker".
Proof.
  apply (polling_without_window_panics Sample.host
           (Sample.runner (Config.unmarshalRule Sample2.two_way)) 0 Sample.fs []).
  - right. left. reflexivity.
  - discriminate.
  - reflexivity.
Defined.

(** X16: a failure of the start hook undoes nothing: when it returns the
    error of a constructor, the runners of the enabled rules that come
    before the failing one have been started, in order, and no rule after it
    was looked at. *)
Theorem failed_start_keeps_earlier_runners {E : Type}
  (construct : Config.SyncRule -> result E Watcher.ruleRunner)
  (rules : list Config.SyncRule) (err : E) :
  snd (Watcher.start_rules construct rules []) = Some err ->
  exists pre r post,
    rules = pre ++ r :: post
    /\ Config.Enabled r = true /\ construct r = Err err
    /\ map Ok (fst (Watcher.start_rules construct rules []))
       = map construct (filter Config.Enabled pre).
Proof.
  intros H. pose proof (start_rules_spec construct rules []) as Hs.
  destruct (Watcher.start_rules construct rules []) as [out [e|]];
    [|discriminate H].
  cbn [snd] in H. injection H as ->. cbn [fst].
  destruct Hs as (pre & r & post & new & Hr & En & C & Ho & Hm).
  exists pre, r, post. cbn [app] in Ho. subst out. auto.
Qed.

Lemma failed_start_keeps_earlier_runners_witness :
  exists pre r post,
    [Sample.book; Sample.no_source; Sample.mirror] = pre ++ r :: post
    /\ Config.Enabled r = true /\ Sample.strict r = Err "no source"
    /\ map Ok (fst (Watcher.start_rules Sample.strict
                      [Sample.book; Sample.no_source; Sample.mirror] []))
       = map Sample.strict (filter Config.Enabled pre).
Proof.
  apply (failed_start_keeps_earlier_runners Sample.strict
           [Sample.book; Sample.no_source; Sample.mirror] "no source").
  reflexivity.
Defined.

(** X17: [run] starts by watching every directory below the root, in the
    order of the walk and whatever the ignore list says, then makes the
    initial synchronization before anything else; it has no timer yet. *)
Theorem run_watches_the_whole_tree (rr : Watcher.ruleRunner) (now : Z)
  (new_watcher_err : option string) (fs : Watcher.FS) (st : Watcher.state) :
  Watcher.start rr now new_watcher_err fs = Watcher.Entered st ->
  Watcher.watcher st
  = Inputs.directories (Watcher.WalkDir fs (Watcher.srcRoot rr))
  /\ hd_error (Watcher.trace st)
     = Some (now, Watcher.RSync (Watcher.syncOnce rr "initial"))
  /\ Trace.syncs "initial" (Watcher.trace st) = [now]
  /\ Watcher.timer st = None.
Proof.
  unfold Watcher.start. destruct new_watcher_err; [discriminate|].
  destruct (addRecursive_spec fs [] (Watcher.srcRoot rr))
    as (added & rest & H1 & H2 & H3).
  destruct (Watcher.addRecursive fs [] (Watcher.srcRoot rr)) as [w [err|]];
    [discriminate|].
  cbn [fst snd] in H1, H3. specialize (H3 eq_refl). subst rest w.
  rewrite app_nil_r in H2. cbn [app]. rewrite <- H2.
  assert (Hi : Trace.tagged "initial" (Watcher.syncOnce rr "initial") = true)
    by apply tagged_syncOnce.
  destruct (Watcher.containsDir _ _ || Watcher.containsDir _ _).
  - destruct (_ <=? 0)%Z; [discriminate|]. intros [= <-].
    cbn [Watcher.watcher Watcher.trace Watcher.timer app hd_error].
    unfold Trace.syncs, Trace.is_sync. cbn [filter snd]. rewrite Hi.
    repeat split.
  - intros [= <-].
    cbn [Watcher.watcher Watcher.trace Watcher.timer app hd_error].
    unfold Trace.syncs, Trace.is_sync. cbn [filter snd]. rewrite Hi.
    repeat split.
Qed.

Lemma run_watches_the_whole_tree_witness :
  Watcher.watcher (Sample.entered Sample.mirror) = ["/data"].
Proof.
  destruct (run_watches_the_whole_tree (Sample.runner Sample.mirror) 0 None
              Sample.fs (Sample.entered Sample.mirror) eq_refl) as [H _].
  rewrite H. reflexivity.
Defined.

(** ** Expanding the source path *)

(** X18: with an absolute home directory, [Expand] turns a path that starts
    with a tilde into an absolute path, leaves any other path as it is, and
    expanding twice is expanding once. *)
Theorem Expand_absolute_home (home path : string) :
  GoStrings.HasPrefix home "/" = true ->
  (GoStrings.HasPrefix path "~" = true ->
   GoStrings.HasPrefix (Util.Expand home path) "/" = true)
  /\ (GoStrings.HasPrefix path "~" = false -> Util.Expand home path = path)
  /\ Util.Expand home (Util.Expand home path) = Util.Expand home path.
Proof.
  intros Hh.
  destruct home as [|c home]; [discriminate Hh|].
  cbn [GoStrings.HasPrefix] in Hh.
  destruct (Ascii.eqb "/" c) eqn:Ec; [|discriminate Hh].
  apply Ascii.eqb_eq in Ec. subst c.
  assert (Hx : GoStrings.HasPrefix path "~" = true ->
               exists body, Util.Expand (String "/" home) path = String "/" body).
  { intros Hp. unfold Util.Expand. rewrite Hp.
    unfold Filepath.Join. cbn [String.eqb GoStrings.Join append].
    unfold Filepath.Clean. cbn [Ascii.eqb Filepath.Separator].
    change (Ascii.eqb "/" "/") with true. cbv iota. eexists. reflexivity. }
  split; [|split].
  - intros Hp. destruct (Hx Hp) as [body ->]. apply (HasPrefix_empty body).
  - intros Hp. unfold Util.Expand. now rewrite Hp.
  - destruct (GoStrings.HasPrefix path "~") eqn:Hp.
    + destruct (Hx eq_refl) as [body ->]. reflexivity.
    + unfold Util.Expand. now rewrite !Hp.
Qed.

Lemma Expand_absolute_home_witness :
  GoStrings.HasPrefix (Util.Expand "/home/u" "~/Projects/book") "/" = true.
Proof.
  apply (Expand_absolute_home "/home/u" "~/Projects/book"); reflexivity.
Defined.

(** ** The level of the logger *)

(** X19: for ASCII names the level [Init] sets depends on the name up to
    the case of its letters only, and not on the logger's earlier state. *)
Theorem Init_ignores_case (unicode_lower : string -> string) (a b : string)
  (l1 l2 : Logging.Logger) :
  GoStrings.all_chars GoStrings.is_ascii a = true ->
  GoStrings.all_chars GoStrings.is_ascii b = true ->
  GoStrings.map_string GoStrings.lower_ascii a
  = GoStrings.map_string GoStrings.lower_ascii b ->
  Logging.Init unicode_lower a l1 = Logging.Init unicode_lower b l2.
Proof.
  intros Ha Hb H. unfold Logging.Init.
  assert (E : GoStrings.ToLower unicode_lower a = GoStrings.ToLower unicode_lower b)
    by (unfold GoStrings.ToLower; now rewrite Ha, Hb, H).
  now rewrite E.
Qed.

Lemma Init_ignores_case_witness :
  Logging.Init (fun s => s) "WARN" Logging.logrus_New
  = Logging.Init (fun s => s) "warn"
      (Logging.Init (fun s => s) "trace" Logging.logrus_New).
Proof.
  apply (Init_ignores_case (fun s => s) "WARN" "warn"); reflexivity.
Defined.

(** ** Stars between literal parts *)

Section Stars.
Import Glob.



End Stars.




